(** * Single-room presentation server: session controller and dispatcher

    A shallow embedding of [singleroom_server.py] (classes
    [SessionController] and [ClientWSConnection]) and the properties of
    its nickname allocation, registry, role assignment, dispatch and
    fan-out.

    Python strings are modelled as byte strings ([string]); the regular
    expression classes [\w] and [\s] have their ASCII meaning. *)

From stdpp Require Import gmap strings list pretty.
From Stdlib Require Import Ascii String.

#[local] Set Warnings "-clear-no-such-hyp".

(** ** Strings: [re.sub], [str.split], [str] *)

Module Str.

(** [\w] : letters, digits and the underscore. *)
Definition is_word (c : ascii) : bool :=
  let n := nat_of_ascii c in
  (((48 <=? n) && (n <=? 57)) || ((65 <=? n) && (n <=? 90))
   || ((97 <=? n) && (n <=? 122)) || (n =? 95))%nat.

(** [\s] : space, [\t], [\n], [\v], [\f], [\r]. *)
Definition is_space (c : ascii) : bool :=
  let n := nat_of_ascii c in
  ((n =? 32) || ((9 <=? n) && (n <=? 13)))%nat.

(** [re.sub(cls, '', s)] for a pattern that matches single characters of
    the class [cls], or runs of them ([cls+]): every character of the
    class is deleted. *)
Fixpoint re_sub_delete (cls : ascii → bool) (s : string) : string :=
  match s with
  | EmptyString => EmptyString
  | String c s' =>
      if cls c then re_sub_delete cls s' else String c (re_sub_delete cls s')
  end.

(** [s.split(sep)] for a one-character separator. *)
Fixpoint split (sep : ascii) (s : string) : list string :=
  match s with
  | EmptyString => [EmptyString]
  | String c s' =>
      if Ascii.eqb c sep then EmptyString :: split sep s'
      else match split sep s' with
           | [] => [String c EmptyString]
           | p :: ps => String c p :: ps
           end
  end.

(** [str(i)] for a non-negative integer. *)
Definition str (i : nat) : string := pretty i.

End Str.

(** ** Nickname allocation: [SessionController.get_safe_nick] *)

(** The two substitutions of [get_safe_nick]. *)
Definition sanitize (initial_nick : string) : string :=
  let safe_nick :=
    Str.re_sub_delete (λ c, negb (Str.is_word c || Str.is_space c)) initial_nick in
  Str.re_sub_delete Str.is_space safe_nick.

(** The [while] loop of [get_safe_nick], with [fuel] bounding the number
    of tests of the loop condition. *)
Fixpoint get_safe_nick_loop (fuel : nat) (nicks : gset string)
    (safe_nick : string) (i : nat) : option string :=
  match fuel with
  | O => None
  | S fuel' =>
      if bool_decide (safe_nick ∈ nicks)
      then get_safe_nick_loop fuel' nicks (safe_nick +:+ Str.str i) (S i)
      else Some safe_nick
  end.

Definition get_safe_nick (nicks : gset string) (initial_nick : string)
    : option string :=
  get_safe_nick_loop (S (size nicks)) nicks (sanitize initial_nick) 1.

(** The candidates the loop tests: the suffixes accumulate, so the
    candidate after [k] collisions ends in [str 1 ++ ... ++ str k]. *)
Fixpoint candidate_from (safe_nick : string) (i k : nat) : string :=
  match k with
  | O => safe_nick
  | S k' => candidate_from (safe_nick +:+ Str.str i) (S i) k'
  end.

Definition candidate (base : string) (k : nat) : string :=
  candidate_from base 1 k.

(** The allocator as the specification words it: probe [base], then
    [base ++ str 1], [base ++ str 2], ... *)
Fixpoint allocate_spec_loop (fuel : nat) (taken : gset string)
    (base : string) (i : nat) : option string :=
  match fuel with
  | O => None
  | S fuel' =>
      if bool_decide (base +:+ Str.str i ∈ taken)
      then allocate_spec_loop fuel' taken base (S i)
      else Some (base +:+ Str.str i)
  end.

Definition allocate_spec (taken : gset string) (requested : string)
    : option string :=
  let base := sanitize requested in
  if bool_decide (base ∈ taken) then
    allocate_spec_loop (S (size taken)) taken base 1
  else Some base.

(** ** Data model *)

(** Values produced by [json.loads] and stored in the policy flags. A
    float is kept as mantissa and decimal exponent. *)
#[warnings="-register-all"]
Inductive json : Type :=
| JNull
| JBool (b : bool)
| JInt (n : Z)
| JFloat (mantissa exponent : Z)
| JString (s : string)
| JArray (items : list json)
| JObject (members : list (string * json)).

(** Python truth value, as tested by [if self._SC._follow_instructor:]. *)
Definition truthy (v : json) : bool :=
  match v with
  | JNull => false
  | JBool b => b
  | JInt n => negb (n =? 0)%Z
  | JFloat m _ => negb (m =? 0)%Z
  | JString s => negb (String.eqb s "")
  | JArray items => match items with [] => false | _ => true end
  | JObject members => match members with [] => false | _ => true end
  end.

(** Library code the server calls: [json.loads] ([None] when it raises
    [ValueError]), [json.dumps] and the template rendering of
    [render_file]. *)
Class Library := {
  json_loads : string → option json;
  json_dumps : json → string;
  render_file : string → option (list (string * json)) → string
}.

(** Exceptions raised by the modelled code. [NonTermination] stands for a
    [while] loop that exhausted its fuel. *)
Inductive exn : Type :=
| KeyError (key : option string)
| IndexError
| AttributeError (name : string)
| ValueError
| WebSocketClosedError
| NonTermination.

Inductive outcome (A : Type) : Type :=
| Return (a : A)
| Raise (e : exn).
Arguments Return {A} a.
Arguments Raise {A} e.

(** A [ClientWSConnection] object: the attributes set by [initialize] and
    the state of its transport. [closed] is true once [close()] ran or the
    peer is gone; [written] lists the messages accepted by
    [write_message], oldest first. *)
Record ClientWSConnection : Type := mkConn {
  _nick : option string;
  _is_instructor : bool;
  closed : bool;
  written : list string
}.

(** Connections are referred to by identity. *)
Definition conn_id := nat.

(** The dictionary [client_obj] of [add_client], with its keys ["nick"],
    ["connection"] and ["instructor"]. *)
Record client_obj : Type := mkClient {
  co_nick : string;
  co_connection : conn_id;
  co_instructor : bool
}.

(** The attributes of [SessionController]. [clients] is a dictionary in
    insertion order. *)
Record SessionController : Type := mkSC {
  clients : list (string * client_obj);
  nicks : gset string;
  instructor : option client_obj;
  _presentation_started : bool;
  _follow_instructor : json;
  _lock_student_nav : json;
  _latest_instructor_state : string
}.

(** The heap: the one [SessionController] and every connection object. A
    connection absent from [conns] is in the state [initialize] leaves it
    in. *)
Record world : Type := mkWorld {
  SC : SessionController;
  conns : gmap conn_id ClientWSConnection
}.

(** [SessionController.__init__] *)
Definition SessionController_init : SessionController :=
  {| clients := []; nicks := ∅; instructor := None;
     _presentation_started := false;
     _follow_instructor := JBool true;
     _lock_student_nav := JBool true;
     _latest_instructor_state := "" |}.

(** [ClientWSConnection.initialize] *)
Definition initialize : ClientWSConnection :=
  {| _nick := None; _is_instructor := false; closed := false; written := [] |}.

Definition world_init : world :=
  {| SC := SessionController_init; conns := ∅ |}.

Definition conn_of (w : world) (c : conn_id) : ClientWSConnection :=
  default initialize (conns w !! c).

(** Attribute assignment. *)
Definition set_clients (v : list (string * client_obj)) (s : SessionController) :=
  mkSC v (nicks s) (instructor s) (_presentation_started s)
       (_follow_instructor s) (_lock_student_nav s) (_latest_instructor_state s).
Definition set_nicks (v : gset string) (s : SessionController) :=
  mkSC (clients s) v (instructor s) (_presentation_started s)
       (_follow_instructor s) (_lock_student_nav s) (_latest_instructor_state s).
Definition set_instructor_obj (v : option client_obj) (s : SessionController) :=
  mkSC (clients s) (nicks s) v (_presentation_started s)
       (_follow_instructor s) (_lock_student_nav s) (_latest_instructor_state s).
Definition set_presentation_started (v : bool) (s : SessionController) :=
  mkSC (clients s) (nicks s) (instructor s) v
       (_follow_instructor s) (_lock_student_nav s) (_latest_instructor_state s).
Definition set_follow_instructor (v : json) (s : SessionController) :=
  mkSC (clients s) (nicks s) (instructor s) (_presentation_started s)
       v (_lock_student_nav s) (_latest_instructor_state s).
Definition set_lock_student_nav (v : json) (s : SessionController) :=
  mkSC (clients s) (nicks s) (instructor s) (_presentation_started s)
       (_follow_instructor s) v (_latest_instructor_state s).
Definition set_latest_instructor_state (v : string) (s : SessionController) :=
  mkSC (clients s) (nicks s) (instructor s) (_presentation_started s)
       (_follow_instructor s) (_lock_student_nav s) v.

Definition with_SC (f : SessionController → SessionController) (w : world) : world :=
  {| SC := f (SC w); conns := conns w |}.
Definition with_conn (c : conn_id) (f : ClientWSConnection → ClientWSConnection)
    (w : world) : world :=
  {| SC := SC w; conns := <[c := f (conn_of w c)]> (conns w) |}.

(** ** Dictionaries in insertion order *)

Module Dict.
Section Dict.
Context {V : Type}.

(** [d[k]] *)
Fixpoint get (d : list (string * V)) (k : string) : option V :=
  match d with
  | [] => None
  | (k', v) :: d' => if String.eqb k' k then Some v else get d' k
  end.

(** [d[k] = v]: an existing key keeps its place. *)
Fixpoint set (d : list (string * V)) (k : string) (v : V) : list (string * V) :=
  match d with
  | [] => [(k, v)]
  | (k', v') :: d' =>
      if String.eqb k' k then (k', v) :: d' else (k', v') :: set d' k v
  end.

(** [del d[k]] *)
Fixpoint del (d : list (string * V)) (k : string) : list (string * V) :=
  match d with
  | [] => []
  | (k', v') :: d' =>
      if String.eqb k' k then del d' k else (k', v') :: del d' k
  end.

(** The keys, in iteration order. *)
Definition keys (d : list (string * V)) : list string := d.*1.
End Dict.
End Dict.

(** ** The state and exception monad *)

(** A computation runs on the heap and either returns or raises; the
    mutations made before an exception stay. *)
Definition M (A : Type) : Type := world → outcome A * world.

Definition ret {A} (a : A) : M A := λ w, (Return a, w).
Definition raise {A} (e : exn) : M A := λ w, (Raise e, w).
Definition bind {A B} (m : M A) (k : A → M B) : M B :=
  λ w, match m w with
       | (Return a, w') => k a w'
       | (Raise e, w') => (Raise e, w')
       end.
Definition gets {A} (f : world → A) : M A := λ w, (Return (f w), w).
Definition modify (f : world → world) : M unit := λ w, (Return tt, f w).

Notation "'let!' x ':=' m 'in' k" := (bind m (λ x, k))
  (at level 10, x name, m at level 100, k at level 200).
Notation "m ';;!' k" := (bind m (λ _, k))
  (at level 100, k at level 200, right associativity).

(** [for x in l: body(x)] *)
Fixpoint for_each {A} (l : list A) (body : A → M unit) : M unit :=
  match l with
  | [] => ret tt
  | x :: l' => body x ;;! for_each l' body
  end.

(** [l[i]] *)
Definition getitem {A} (l : list A) (i : nat) : M A :=
  match l !! i with
  | Some x => ret x
  | None => raise IndexError
  end.

(** ** The transport of a connection *)

(** [conn.write_message(msg)]: a closed connection refuses the write by
    raising; an open one accepts the message. *)
Definition write_message (conn : conn_id) (msg : string) : M unit :=
  λ w, if closed (conn_of w conn) then (Raise WebSocketClosedError, w)
       else (Return tt,
             with_conn conn (λ cn, mkConn (_nick cn) (_is_instructor cn)
                                          (closed cn) (written cn ++ [msg])) w).

(** [conn.close()] *)
Definition close (conn : conn_id) : M unit :=
  modify (with_conn conn (λ cn, mkConn (_nick cn) (_is_instructor cn)
                                       true (written cn))).

(** [ClientWSConnection.set_instructor] *)
Definition set_instructor (self : conn_id) (is_instructor : bool) : M unit :=
  modify (with_conn self (λ cn, mkConn (_nick cn) is_instructor
                                       (closed cn) (written cn))).

Definition set_nick (self : conn_id) (nick : string) : M unit :=
  modify (with_conn self (λ cn, mkConn (Some nick) (_is_instructor cn)
                                       (closed cn) (written cn))).

(** ** [SessionController] *)

(** [self.clients[nick]] *)
Definition clients_getitem (nick : string) : M client_obj :=
  λ w, match Dict.get (clients (SC w)) nick with
       | Some o => (Return o, w)
       | None => (Raise (KeyError (Some nick)), w)
       end.

(** [for nick in self.clients: self.clients[nick]['connection'].write_message(msg)] *)
Definition write_to_all (msg : string) : M unit :=
  let! ks := gets (λ w, Dict.keys (clients (SC w))) in
  for_each ks (λ nick,
    let! o := clients_getitem nick in
    write_message (co_connection o) msg).

(** The loop of [broadcast_reveal_state] and [broadcast_lock_student_nav]:
    the connections whose [_is_instructor] is false are written to. *)
Definition write_to_non_instructors (msg : string) : M unit :=
  let! ks := gets (λ w, Dict.keys (clients (SC w))) in
  for_each ks (λ nick,
    let! o := clients_getitem nick in
    let conn := co_connection o in
    let! is_instr := gets (λ w, _is_instructor (conn_of w conn)) in
    if negb is_instr then write_message conn msg else ret tt).

Definition get_safe_nick_m (initial_nick : string) : M string :=
  λ w, match get_safe_nick (nicks (SC w)) initial_nick with
       | Some safe_nick => (Return safe_nick, w)
       | None => (Raise NonTermination, w)
       end.

Definition nicklist_msg (s : SessionController) : string :=
  let payload :=
    foldl (λ payload nick, payload +:+ ("<li>" +:+ nick +:+ "</li>"))
          "<ul>" (elements (nicks s)) in
  "nicklist|" +:+ (payload +:+ "</ul>").

Definition broadcast_nicklist : M unit :=
  let! msg := gets (λ w, nicklist_msg (SC w)) in
  write_to_all msg.

Definition add_client (initial_nick : string) (conn : conn_id) : M string :=
  let! final_nick := get_safe_nick_m initial_nick in
  let! n := gets (λ w, List.length (clients (SC w))) in
  let! client_obj :=
    (if (n =? 0) then
       let client_obj := mkClient final_nick conn true in
       modify (with_SC (set_instructor_obj (Some client_obj))) ;;!
       set_instructor conn true ;;!
       ret client_obj
     else ret (mkClient final_nick conn false)) in
  modify (with_SC (λ s, set_clients (Dict.set (clients s) final_nick client_obj) s)) ;;!
  modify (with_SC (λ s, set_nicks ({[ final_nick ]} ∪ nicks s) s)) ;;!
  broadcast_nicklist ;;!
  ret final_nick.

(** [self.nicks.remove(nick)] raises [KeyError] for an absent element. *)
Definition nicks_remove (nick : string) : M unit :=
  λ w, if bool_decide (nick ∈ nicks (SC w))
       then (Return tt, with_SC (λ s, set_nicks (nicks s ∖ {[ nick ]}) s) w)
       else (Raise (KeyError (Some nick)), w).

Definition remove_client (nick : string) : M unit :=
  let! o := clients_getitem nick in
  close (co_connection o) ;;!
  modify (with_SC (λ s, set_clients (Dict.del (clients s) nick) s)) ;;!
  nicks_remove nick ;;!
  broadcast_nicklist.

Definition set_instructor_state (state_txt : string) : M unit :=
  modify (with_SC (set_latest_instructor_state state_txt)).

Definition get_instructor_state : M string :=
  gets (λ w, _latest_instructor_state (SC w)).

Definition broadcast_finish_presentation : M unit :=
  let msg := String.concat "|" ["finish_presentation"] in
  write_to_all msg ;;!
  modify (with_SC (set_presentation_started false)) ;;!
  modify (with_SC (set_follow_instructor (JBool true))) ;;!
  modify (with_SC (set_lock_student_nav (JBool true))).

Definition broadcast_reveal_state (state_txt : string) : M unit :=
  let msg := "instructor_state|" +:+ state_txt in
  write_to_non_instructors msg.

Section WithLibrary.
Context `{Library}.

Definition generate_start_presentation_msg : M string :=
  let! follow := gets (λ w, _follow_instructor (SC w)) in
  let! lock := gets (λ w, _lock_student_nav (SC w)) in
  let params_obj :=
    JObject [("source", JString "/static/presentations/pres1/index.html");
             ("follow_instructor", follow);
             ("lock_student_nav", lock)] in
  let msg_parts := ["load_presentation"; json_dumps params_obj] in
  ret (String.concat "|" msg_parts).

Definition send_start_presentation (connection : conn_id) : M unit :=
  let! msg := generate_start_presentation_msg in
  write_message connection msg.

Definition broadcast_start_presentation : M unit :=
  let! msg := generate_start_presentation_msg in
  write_to_all msg ;;!
  modify (with_SC (set_presentation_started true)).

Definition broadcast_lock_student_nav (lockstate : json) : M unit :=
  let msg := "lock_student_nav|" +:+ json_dumps lockstate in
  write_to_non_instructors msg.

(** [json.loads(text)] *)
Definition loads (text : string) : M json :=
  match json_loads text with
  | Some v => ret v
  | None => raise ValueError
  end.

(** ** [ClientWSConnection] *)

Definition is_instructor (self : conn_id) : M bool :=
  gets (λ w, _is_instructor (conn_of w self)).

Definition open (self : conn_id) (initial_nick : string) : M unit :=
  let! final_nick := add_client initial_nick self in
  set_nick self final_nick ;;!
  let! instr := is_instructor self in
  (if instr then
     let panel_content := render_file "instructor_panel.html" None in
     write_message self ("panel_content|" +:+ panel_content)
   else
     let! lock := gets (λ w, _lock_student_nav (SC w)) in
     let panel_content :=
       render_file "participant_panel.html" (Some [("navigation_locked", lock)]) in
     write_message self ("panel_content|" +:+ panel_content)) ;;!
  let! started := gets (λ w, _presentation_started (SC w)) in
  if started then send_start_presentation self else ret tt.

Definition on_close (self : conn_id) : M unit :=
  let! nick := gets (λ w, _nick (conn_of w self)) in
  match nick with
  | Some nick => remove_client nick
  | None => raise (KeyError None)
  end.

Definition handle_start_presentation (self : conn_id) (msg_parts : list string)
    : M unit :=
  let! instr := is_instructor self in
  if negb instr then ret tt
  else broadcast_start_presentation.

Definition handle_slide_changed (self : conn_id) (msg_parts : list string)
    : M unit :=
  let! state_txt := getitem msg_parts 1 in
  let! instr := is_instructor self in
  if instr then
    set_instructor_state state_txt ;;!
    let! follow := gets (λ w, _follow_instructor (SC w)) in
    if truthy follow then broadcast_reveal_state state_txt else ret tt
  else ret tt.

Definition handle_lock_follow_instructor (self : conn_id) (msg_parts : list string)
    : M unit :=
  let! instr := is_instructor self in
  if negb instr then ret tt
  else
    let! text := getitem msg_parts 1 in
    let! lock := loads text in
    modify (with_SC (set_follow_instructor lock)).

Definition handle_lock_student_nav (self : conn_id) (msg_parts : list string)
    : M unit :=
  let! instr := is_instructor self in
  if negb instr then ret tt
  else
    let! text := getitem msg_parts 1 in
    let! lock := loads text in
    modify (with_SC (set_lock_student_nav lock)) ;;!
    broadcast_lock_student_nav lock.

Definition handle_sync_to_instructor (self : conn_id) (msg_parts : list string)
    : M unit :=
  let! state_txt := get_instructor_state in
  let! instr := is_instructor self in
  if instr then broadcast_reveal_state state_txt
  else
    let msg := "instructor_state|" +:+ state_txt in
    write_message self msg.

Definition handle_finish_presentation (self : conn_id) (msg_parts : list string)
    : M unit :=
  let! instr := is_instructor self in
  if negb instr then ret tt
  else broadcast_finish_presentation.

(** The methods of [ClientWSConnection] whose name starts with
    [handle_]. *)
Definition handlers : list (string * (conn_id → list string → M unit)) :=
  [("handle_start_presentation", handle_start_presentation);
   ("handle_slide_changed", handle_slide_changed);
   ("handle_lock_follow_instructor", handle_lock_follow_instructor);
   ("handle_lock_student_nav", handle_lock_student_nav);
   ("handle_sync_to_instructor", handle_sync_to_instructor);
   ("handle_finish_presentation", handle_finish_presentation)].

(** [getattr(self, func_name)], which raises [AttributeError] when the
    object has no such attribute. *)
Definition getattr (func_name : string) : M (conn_id → list string → M unit) :=
  match Dict.get handlers func_name with
  | Some func => ret func
  | None => raise (AttributeError func_name)
  end.

Definition on_message (self : conn_id) (message : string) : M unit :=
  let msg_parts := Str.split "|" message in
  let! command := getitem msg_parts 0 in
  let func_name := "handle_" +:+ command in
  let! func := getattr func_name in
  func self msg_parts.

End WithLibrary.

(** ** Events and reachable states *)

(** What drives the server: the callbacks of a connection ([open],
    [on_close], [on_message]), direct calls of the registry methods, and
    the transport of a connection going away under the server. *)
Inductive event : Type :=
| EvOpen (c : conn_id) (initial_nick : string)
| EvClose (c : conn_id)
| EvMessage (c : conn_id) (message : string)
| EvAddClient (initial_nick : string) (c : conn_id)
| EvRemoveClient (nick : string)
| EvPeerGone (c : conn_id).

Section Events.
Context `{Library}.

Definition handle_event (e : event) : M unit :=
  match e with
  | EvOpen c initial_nick => open c initial_nick
  | EvClose c => on_close c
  | EvMessage c message => on_message c message
  | EvAddClient initial_nick c => add_client initial_nick c ;;! ret tt
  | EvRemoveClient nick => remove_client nick
  | EvPeerGone c => close c
  end.

(** The heap after an event; an exception that escapes the callback
    leaves the mutations made so far. *)
Definition step (e : event) (w : world) : world := (handle_event e w).2.

Definition run (es : list event) (w : world) : world :=
  foldl (λ w e, step e w) w es.

Inductive reachable : world → Prop :=
| reachable_init : reachable world_init
| reachable_step e w : reachable w → reachable (step e w).

End Events.

(** ** Who a broadcast writes to *)

(** The connections the loop [for nick in self.clients] visits, in
    order. *)
Definition recipients (w : world) : list conn_id :=
  omap (λ nick, co_connection <$> Dict.get (clients (SC w)) nick)
       (Dict.keys (clients (SC w))).

Definition is_participant (w : world) (c : conn_id) : bool :=
  negb (_is_instructor (conn_of w c)).

Definition writable (w : world) (c : conn_id) : Prop :=
  closed (conn_of w c) = false.

Global Instance writable_dec (w : world) (c : conn_id) : Decision (writable w c).
Proof. unfold writable. apply _. Defined.

(** The connections the loop of [broadcast_reveal_state] writes to. *)
Definition participants (w : world) : list conn_id :=
  filter (λ c, _is_instructor (conn_of w c) = false) (recipients w).

(** How many times [c] occurs in [cs]. *)
Definition occurrences (cs : list conn_id) (c : conn_id) : nat :=
  count_occ Nat.eq_dec cs c.

(** The connection [cn] after [n] more copies of [msg] were written. *)
Definition received (n : nat) (msg : string) (cn : ClientWSConnection)
    : ClientWSConnection :=
  mkConn (_nick cn) (_is_instructor cn) (closed cn) (written cn ++ replicate n msg).

(** In a registry, only the first entry may be the instructor's. *)
Definition instructor_first (d : list (string * client_obj)) : Prop :=
  match d with
  | [] => True
  | _ :: d' => Forall (λ kv, co_instructor kv.2 = false) d'
  end.

(** The registry is well formed: its keys are pairwise distinct, they are
    the elements of [nicks], and only the first entry may be the
    instructor's. *)
Definition registry_inv (s : SessionController) : Prop :=
  NoDup (Dict.keys (clients s))
  ∧ (∀ n, n ∈ nicks s ↔ n ∈ Dict.keys (clients s))
  ∧ instructor_first (clients s).

(** The five commands whose handlers act for the instructor only. *)
Definition instructor_only_commands : list string :=
  ["start_presentation"; "slide_changed"; "lock_follow_instructor";
   "lock_student_nav"; "finish_presentation"].

(** The commands [on_message] finds a handler for. *)
Definition known_commands : list string :=
  ["start_presentation"; "slide_changed"; "lock_follow_instructor";
   "lock_student_nav"; "sync_to_instructor"; "finish_presentation"].

(** A library for running the model on concrete inputs: it reads and
    prints the two booleans and renders a template as its file name. *)
Definition demo_library : Library :=
  {| json_loads := λ text,
       if String.eqb text "true" then Some (JBool true)
       else if String.eqb text "false" then Some (JBool false)
       else None;
     json_dumps := λ v,
       match v with
       | JBool true => "true"
       | JBool false => "false"
       | _ => "null"
       end;
     render_file := λ filename _, filename |}.

(** ** Auxiliary notions for the proofs *)

(** The taken names at least as long as [s]: the loop can only collide
    with these from now on. *)
Definition not_shorter (nicks : gset string) (s : string) : gset string :=
  filter (λ t, String.length s ≤ String.length t) nicks.

(** Relations between the heap before and after that every step of a
    computation keeps. *)
Definition preserves (R : relation world) {A} (m : M A) : Prop :=
  ∀ w, R w (m w).2.

(** The session controller is left as it was. *)
Definition same_SC : relation world := λ w w', SC w' = SC w.

(** The registry and the set of nicks are left as they were. *)
Definition same_registry : relation world := λ w w',
  clients (SC w') = clients (SC w) ∧ nicks (SC w') = nicks (SC w).

(** No connection changes its role. *)
Definition same_roles : relation world := λ w w',
  ∀ x, _is_instructor (conn_of w' x) = _is_instructor (conn_of w x).

(** Every character of [s] satisfies [p]. *)
Fixpoint all_chars (p : ascii → bool) (s : string) : bool :=
  match s with
  | EmptyString => true
  | String c s' => p c && all_chars p s'
  end.

(** No connection changes its [_nick]. *)
Definition same_nick_attr : relation world := λ w w',
  ∀ x, _nick (conn_of w' x) = _nick (conn_of w x).

(** No connection is closed or reopened. *)
Definition same_closed : relation world := λ w w',
  ∀ x, closed (conn_of w' x) = closed (conn_of w x).

(** A connection that is closed stays as it is. *)
Definition closed_untouched (c : conn_id) : relation world := λ w w',
  closed (conn_of w c) = true → conn_of w' c = conn_of w c.

(** A role that was given is kept. *)
Definition roles_kept : relation world := λ w w',
  ∀ x, _is_instructor (conn_of w x) = true → _is_instructor (conn_of w' x) = true.

(** Relations kept by every write to a connection and by every
    assignment to an attribute of the session controller. *)
Class TransportOnly (R : relation world) : Prop := {
  to_preorder :: PreOrder R;
  to_write : ∀ c msg, preserves R (write_message c msg);
  to_SC : ∀ f, preserves R (modify (with_SC f))
}.

(** What was written to a connection stays written. *)
Definition written_extends : relation world := λ w w',
  ∀ x, ∃ more, written (conn_of w' x) = written (conn_of w x) ++ more.

(** The heap [add_client] has built when it starts the roster broadcast:
    the new entry is in the registry under [final_nick], the nick is
    taken, and the connection has the instructor role if the registry was
    empty. *)
Definition add_client_state (final_nick : string) (conn : conn_id) (w : world) : world :=
  let first := bool_decide (clients (SC w) = []) in
  let client_obj := mkClient final_nick conn first in
  let w0 :=
    if first then
      with_conn conn (λ cn, mkConn (_nick cn) true (closed cn) (written cn))
        (with_SC (set_instructor_obj (Some client_obj)) w)
    else w in
  with_SC (λ s, set_nicks ({[ final_nick ]} ∪ nicks s) s)
    (with_SC (λ s, set_clients (Dict.set (clients s) final_nick client_obj) s) w0).

(** ** Example states *)

(** Ann, Bob and Cat joined in this order on connections 0, 1 and 2. *)
Definition three_clients : world :=
  (add_client "Cat" 2 (add_client "Bob" 1 (add_client "Ann" 0 world_init).2).2).2.

(** The same room after Bob's peer went away and before his [on_close]
    ran. *)
Definition bob_gone : world := (close 1 three_clients).2.

(** Ann, Bob and Cat joined; Ann started the presentation and switched
    both flags off; then Bob's peer went away and his [on_close] has not
    run yet. *)
Definition flags_off_bob_gone : world :=
  @run demo_library
    [EvAddClient "Ann" 0; EvAddClient "Bob" 1; EvAddClient "Cat" 2;
     EvMessage 0 "start_presentation";
     EvMessage 0 "lock_follow_instructor|false";
     EvMessage 0 "lock_student_nav|false";
     EvPeerGone 1]
    world_init.

(** * Properties *)

(** ** Strings *)

Lemma length_append (s1 s2 : string) :
  String.length (s1 +:+ s2) = String.length s1 + String.length s2.
Proof.
  induction s1 as [|a s1 IH]; [reflexivity|].
  change (String a s1 +:+ s2) with (String a (s1 +:+ s2)).
  cbn [String.length]. rewrite IH. reflexivity.
Qed.

Lemma pretty_N_go_length (x : N) (s : string) :
  String.length s ≤ String.length (pretty_N_go x s).
Proof.
  revert s. induction (N.lt_wf_0 x) as [x _ IH]; intros s.
  destruct (decide (x = 0)%N) as [->|Hx].
  - rewrite pretty_N_go_0. lia.
  - rewrite pretty_N_go_step by lia.
    etrans; [|apply IH; apply N.div_lt; lia].
    cbn [String.length]. lia.
Qed.

(** [str(i)] is never the empty string. *)
Lemma str_nonempty (i : nat) : 0 < String.length (Str.str i).
Proof.
  unfold Str.str, pretty, pretty_nat, pretty, pretty_N.
  destruct (decide (N.of_nat i = 0)%N) as [|Hi]; [cbn; lia|].
  rewrite pretty_N_go_step by lia.
  eapply Nat.lt_le_trans; [|apply pretty_N_go_length].
  cbn [String.length]. lia.
Qed.

(** ** Nickname allocation *)

Lemma not_shorter_shrinks (nicks : gset string) (s : string) (i : nat) :
  s ∈ nicks → size (not_shorter nicks (s +:+ Str.str i)) < size (not_shorter nicks s).
Proof.
  intros Hin. apply subset_size. unfold not_shorter.
  pose proof (str_nonempty i) as Hi.
  pose proof (length_append s (Str.str i)) as Hl.
  split.
  - intros t. rewrite !elem_of_filter. intros [Hlen Ht]. split; [lia|done].
  - intros Hsub. specialize (Hsub s).
    rewrite !elem_of_filter in Hsub.
    destruct Hsub as [Hlen _]; [split; [lia|done]|]. lia.
Qed.

Lemma candidate_from_succ (s : string) (i k : nat) :
  candidate_from s i (S k) = candidate_from s i k +:+ Str.str (i + k).
Proof.
  revert s i. induction k as [|k IH]; intros s i.
  - cbn. by rewrite Nat.add_0_r.
  - change (candidate_from s i (S (S k)))
      with (candidate_from (s +:+ Str.str i) (S i) (S k)).
    rewrite IH. cbn [candidate_from]. do 2 f_equal. lia.
Qed.

(** Each candidate is the previous one followed by the next integer. *)
Lemma candidate_succ (base : string) (k : nat) :
  candidate base (S k) = candidate base k +:+ Str.str (S k).
Proof. unfold candidate. by rewrite candidate_from_succ. Qed.

Lemma get_safe_nick_loop_spec (nicks : gset string) (fuel : nat) :
  ∀ (safe_nick : string) (i : nat),
    size (not_shorter nicks safe_nick) < fuel →
    ∃ k, get_safe_nick_loop fuel nicks safe_nick i
           = Some (candidate_from safe_nick i k)
         ∧ (candidate_from safe_nick i k ∉ nicks)
         ∧ ∀ j, j < k → candidate_from safe_nick i j ∈ nicks.
Proof.
  induction fuel as [|fuel IH]; intros safe_nick i Hfuel; [lia|].
  cbn [get_safe_nick_loop]. case_bool_decide as Hin.
  - destruct (IH (safe_nick +:+ Str.str i) (S i)) as (k & Hk & Hfree & Hbelow).
    { pose proof (not_shorter_shrinks nicks safe_nick i Hin). lia. }
    exists (S k). split_and!; [done..|].
    intros [|j] Hj; [done|]. apply Hbelow. lia.
  - exists 0. split_and!; [done..|]. intros j Hj. lia.
Qed.

(** The loop of [get_safe_nick] ends: the fuel it is given is enough. *)
Lemma get_safe_nick_returns (nicks : gset string) (initial_nick : string) :
  is_Some (get_safe_nick nicks initial_nick).
Proof.
  destruct (get_safe_nick_loop_spec nicks (S (size nicks)) (sanitize initial_nick) 1)
    as (k & Hk & _).
  - unfold not_shorter.
    pose proof (subseteq_size
      (filter (λ t, String.length (sanitize initial_nick) ≤ String.length t) nicks)
      nicks) as Hle.
    assert (size (filter (λ t, String.length (sanitize initial_nick) ≤ String.length t)
                         nicks) ≤ size nicks); [|lia].
    apply Hle. intros t. rewrite elem_of_filter. tauto.
  - unfold get_safe_nick. rewrite Hk. eauto.
Qed.

(** The nick returned is not taken. *)
Lemma get_safe_nick_fresh (nicks : gset string) (initial_nick safe_nick : string) :
  get_safe_nick nicks initial_nick = Some safe_nick → safe_nick ∉ nicks.
Proof.
  revert safe_nick. unfold get_safe_nick.
  generalize (S (size nicks)) (sanitize initial_nick) 1.
  intros fuel. induction fuel as [|fuel IH]; intros s i safe_nick; [done|].
  cbn [get_safe_nick_loop]. case_bool_decide; [apply IH|]. by intros [= <-].
Qed.

(** C1 (as the code has it). For every requested name and taken-set,
    [get_safe_nick] sanitizes the request to a base candidate and returns
    the first candidate not in the taken-set, where the candidates are
    the base, then the base followed by "1", then that followed by "2",
    and so on: each probe appends the next positive integer to the
    previous candidate (base, base1, base12, base123, ...). *)
Theorem get_safe_nick_first_free_candidate
    (nicks : gset string) (initial_nick : string) :
  ∃ k, get_safe_nick nicks initial_nick
         = Some (candidate (sanitize initial_nick) k)
       ∧ (candidate (sanitize initial_nick) k ∉ nicks)
       ∧ (∀ j, j < k → candidate (sanitize initial_nick) j ∈ nicks)
       ∧ candidate (sanitize initial_nick) 0 = sanitize initial_nick
       ∧ (∀ j, candidate (sanitize initial_nick) (S j)
               = candidate (sanitize initial_nick) j +:+ Str.str (S j)).
Proof.
  destruct (get_safe_nick_loop_spec nicks (S (size nicks)) (sanitize initial_nick) 1)
    as (k & Hk & Hfree & Hbelow).
  - destruct (get_safe_nick_returns nicks initial_nick) as [n Hn].
    unfold not_shorter.
    assert (filter (λ t, String.length (sanitize initial_nick) ≤ String.length t) nicks
            ⊆ nicks) as Hsub.
    { intros t. rewrite elem_of_filter. tauto. }
    apply subseteq_size in Hsub. lia.
  - exists k. split_and!; [done..| |].
    + reflexivity.
    + intros j. apply candidate_succ.
Qed.

(** C1 (as the specification has it) fails: with "Bob" and "Bob1" taken,
    a request for "Bob" is answered "Bob12", where probing base+"1",
    base+"2" would answer "Bob2". *)
Lemma get_safe_nick_Bob_Bob1_counterexample :
  get_safe_nick {[ "Bob"; "Bob1" ]} "Bob" = Some "Bob12"
  ∧ allocate_spec {[ "Bob"; "Bob1" ]} "Bob" = Some "Bob2"
  ∧ get_safe_nick {[ "Bob"; "Bob1" ]} "Bob" ≠ allocate_spec {[ "Bob"; "Bob1" ]} "Bob".
Proof. split_and!; [by vm_compute..|]. by vm_compute. Qed.

(** ** Dictionaries *)

Module DictFacts.
Section DictFacts.
Context {V : Type}.
Implicit Types (d : list (string * V)) (k : string) (v : V).

Lemma get_None d k : Dict.get d k = None ↔ k ∉ Dict.keys d.
Proof.
  unfold Dict.keys. induction d as [|[k' v'] d IH]; cbn.
  - split; [intros _; apply not_elem_of_nil|done].
  - destruct (String.eqb_spec k' k) as [->|Hne].
    + split; [done|]. intros []. left.
    + rewrite IH, not_elem_of_cons. naive_solver.
Qed.

Lemma get_Some_elem d k v : Dict.get d k = Some v → (k, v) ∈ d.
Proof.
  induction d as [|[k' v'] d IH]; cbn; [done|].
  destruct (String.eqb_spec k' k) as [->|Hne].
  - intros [= ->]. left.
  - intros Hget. right. by apply IH.
Qed.

Lemma get_key_is_Some d k : k ∈ Dict.keys d → is_Some (Dict.get d k).
Proof.
  intros Hin. destruct (Dict.get d k) eqn:Hget; [eauto|].
  by apply get_None in Hget.
Qed.

(** Assigning to a key that is not there appends the entry. *)
Lemma set_fresh d k v : k ∉ Dict.keys d → Dict.set d k v = d ++ [(k, v)].
Proof.
  unfold Dict.keys. induction d as [|[k' v'] d IH]; cbn; [done|].
  rewrite not_elem_of_cons. intros [Hne Hnin].
  destruct (String.eqb_spec k' k) as [->|_]; [done|]. by rewrite IH.
Qed.

Lemma elem_of_del d k kv : kv ∈ Dict.del d k → kv ∈ d.
Proof.
  induction d as [|[k' v'] d IH]; cbn; [done|].
  destruct (String.eqb k' k).
  - intros Hin. right. by apply IH.
  - rewrite !elem_of_cons. naive_solver.
Qed.

Lemma elem_of_keys_del d k k0 :
  k0 ∈ Dict.keys (Dict.del d k) ↔ k0 ∈ Dict.keys d ∧ k0 ≠ k.
Proof.
  unfold Dict.keys. induction d as [|[k' v'] d IH]; cbn.
  - rewrite elem_of_nil. tauto.
  - destruct (String.eqb_spec k' k) as [->|Hne]; cbn.
    + rewrite IH, elem_of_cons. naive_solver.
    + rewrite !elem_of_cons, IH. naive_solver.
Qed.

Lemma NoDup_keys_del d k : NoDup (Dict.keys d) → NoDup (Dict.keys (Dict.del d k)).
Proof.
  unfold Dict.keys. induction d as [|[k' v'] d IH]; cbn; [done|].
  rewrite NoDup_cons. intros [Hnin Hnd].
  destruct (String.eqb k' k); cbn; [by apply IH|].
  apply NoDup_cons. split; [|by apply IH].
  intros Hin. apply Hnin.
  by apply (elem_of_keys_del d k k') in Hin as [? _].
Qed.

Lemma Forall_del (P : string * V → Prop) d k : Forall P d → Forall P (Dict.del d k).
Proof.
  rewrite !Forall_forall. intros HP kv Hin. apply HP. by eapply elem_of_del.
Qed.
End DictFacts.
End DictFacts.

(** ** Running computations *)

Lemma bind_Return {A B} (m : M A) (k : A → M B) (w w' : world) (a : A) :
  m w = (Return a, w') → bind m k w = k a w'.
Proof. unfold bind. by intros ->. Qed.

Lemma bind_Raise {A B} (m : M A) (k : A → M B) (w w' : world) (e : exn) :
  m w = (Raise e, w') → bind m k w = (Raise e, w').
Proof. unfold bind. by intros ->. Qed.

Lemma bind_ext_at {A B} (m m' : M A) (k k' : A → M B) (w : world) :
  m w = m' w →
  (∀ a w1, m' w = (Return a, w1) → k a w1 = k' a w1) →
  bind m k w = bind m' k' w.
Proof.
  intros Hm Hk. unfold bind. rewrite Hm.
  destruct (m' w) as [[a|e] w1]; [by apply Hk|done].
Qed.

Section Preserves.
Context (R : relation world) `{!PreOrder R}.

Lemma preserves_ret {A} (a : A) : preserves R (ret a).
Proof. intros w. reflexivity. Qed.

Lemma preserves_raise {A} (e : exn) : preserves R (@raise A e).
Proof. intros w. reflexivity. Qed.

Lemma preserves_gets {A} (f : world → A) : preserves R (gets f).
Proof. intros w. reflexivity. Qed.

Lemma preserves_getitem {A} (l : list A) (i : nat) : preserves R (getitem l i).
Proof. intros w. unfold getitem. destruct (l !! i); reflexivity. Qed.

Lemma preserves_bind {A B} (m : M A) (k : A → M B) :
  preserves R m → (∀ a, preserves R (k a)) → preserves R (bind m k).
Proof.
  intros Hm Hk w. unfold bind. specialize (Hm w).
  destruct (m w) as [[a|e] w']; [|done].
  etrans; [exact Hm|apply Hk].
Qed.

Lemma preserves_bind_after {A B} (m : M A) (k : A → M B) (w : world) :
  (∀ a, preserves R (k a)) → R (m w).2 (bind m k w).2.
Proof.
  intros Hk. unfold bind. destruct (m w) as [[a|e] w']; [apply Hk|reflexivity].
Qed.

Lemma preserves_for_each {A} (l : list A) (body : A → M unit) :
  (∀ x, preserves R (body x)) → preserves R (for_each l body).
Proof.
  intros Hbody. induction l as [|x l IH]; cbn [for_each].
  - apply preserves_ret.
  - apply preserves_bind; [apply Hbody|intros _; apply IH].
Qed.

Lemma preserves_if {A} (b : bool) (m1 m2 : M A) :
  preserves R m1 → preserves R m2 → preserves R (if b then m1 else m2).
Proof. by destruct b. Qed.
End Preserves.

Global Instance same_SC_preorder : PreOrder same_SC.
Proof. split; [done|]. unfold same_SC. intros w1 w2 w3. congruence. Qed.

Global Instance same_registry_preorder : PreOrder same_registry.
Proof.
  split; [done|]. unfold same_registry. intros w1 w2 w3 [-> ->] [-> ->]. done.
Qed.

Global Instance same_roles_preorder : PreOrder same_roles.
Proof.
  split; [done|]. unfold same_roles. intros w1 w2 w3 H12 H23 x.
  by rewrite H23, H12.
Qed.

Lemma preserves_same_SC_registry {A} (m : M A) :
  preserves same_SC m → preserves same_registry m.
Proof. intros Hm w. specialize (Hm w). unfold same_SC in Hm. split; by rewrite Hm. Qed.

(** Breaks a computation into its steps. *)
Create HintDb preserves.

Ltac preserves_step :=
  lazymatch goal with
  | |- preserves _ (ret _) => apply preserves_ret; tc_solve
  | |- preserves _ (raise _) => apply preserves_raise; tc_solve
  | |- preserves _ (gets _) => apply preserves_gets; tc_solve
  | |- preserves _ (getitem _ _) => apply preserves_getitem; tc_solve
  | |- preserves _ (bind _ _) => apply preserves_bind; [tc_solve | | intros ?]
  | |- preserves _ (for_each _ _) => apply preserves_for_each; [tc_solve | intros ?]
  | |- preserves _ (if _ then _ else _) => apply preserves_if
  | |- preserves _ (let _ := _ in _) => cbv zeta
  | |- preserves _ _ => solve [eauto with preserves]
  end.

Ltac preserves_steps := repeat preserves_step.

(** ** Writing to connections *)

Lemma conn_of_with_conn (w : world) (c x : conn_id)
    (f : ClientWSConnection → ClientWSConnection) :
  conn_of (with_conn c f w) x = if decide (x = c) then f (conn_of w c) else conn_of w x.
Proof.
  unfold conn_of at 1, with_conn. cbn [conns].
  destruct (decide (x = c)) as [->|Hne].
  - by rewrite lookup_insert_eq.
  - by rewrite lookup_insert_ne.
Qed.

Lemma conn_of_with_SC (w : world) (x : conn_id)
    (f : SessionController → SessionController) :
  conn_of (with_SC f w) x = conn_of w x.
Proof. reflexivity. Qed.

Lemma received_0 (msg : string) (cn : ClientWSConnection) : received 0 msg cn = cn.
Proof. destruct cn. unfold received. cbn. by rewrite app_nil_r. Qed.

Lemma received_received (n : nat) (msg : string) (cn : ClientWSConnection) :
  received n msg (received 1 msg cn) = received (S n) msg cn.
Proof. unfold received. cbn. by rewrite <- app_assoc. Qed.

Lemma write_message_open (w : world) (c : conn_id) (msg : string) :
  writable w c →
  write_message c msg w = (Return tt, with_conn c (received 1 msg) w).
Proof. unfold writable, write_message. by intros ->. Qed.

Lemma write_message_closed (w : world) (c : conn_id) (msg : string) :
  closed (conn_of w c) = true →
  write_message c msg w = (Raise WebSocketClosedError, w).
Proof. unfold write_message. by intros ->. Qed.

Lemma for_each_app {A} (l1 l2 : list A) (body : A → M unit) (w : world) :
  for_each (l1 ++ l2) body w
  = match for_each l1 body w with
    | (Return _, w1) => for_each l2 body w1
    | (Raise e, w1) => (Raise e, w1)
    end.
Proof.
  revert w. induction l1 as [|x l1 IH]; intros w; cbn [for_each app]; [done|].
  unfold bind. destruct (body x w) as [[[]|e] w1]; [apply IH|done].
Qed.

(** Writing to connections that are all open reaches each of them, as
    often as it is listed, and changes nothing else. *)
Lemma deliver_all (msg : string) (cs : list conn_id) :
  ∀ w, Forall (writable w) cs →
    ∃ w', for_each cs (λ c, write_message c msg) w = (Return tt, w')
          ∧ SC w' = SC w
          ∧ ∀ x, conn_of w' x = received (occurrences cs x) msg (conn_of w x).
Proof.
  induction cs as [|c cs IH]; intros w Hopen.
  - exists w. split_and!; [done..|]. intros x. by rewrite received_0.
  - apply Forall_cons in Hopen as [Hc Hcs].
    cbn [for_each]. erewrite bind_Return; [|by apply write_message_open].
    destruct (IH (with_conn c (received 1 msg) w)) as (w' & Hrun & HSC & Hconn).
    { eapply Forall_impl; [exact Hcs|]. intros x. unfold writable.
      rewrite conn_of_with_conn. by destruct (decide (x = c)) as [->|]. }
    exists w'. split_and!; [done..|].
    intros x. rewrite Hconn, conn_of_with_conn. unfold occurrences. cbn [count_occ].
    destruct (decide (x = c)) as [->|Hne].
    + destruct (Nat.eq_dec c c); [|done]. apply received_received.
    + destruct (Nat.eq_dec c x); [by subst|done].
Qed.

(** The first closed connection stops the loop: the connections before
    it were written to, the others were not, and the exception reaches
    the caller. *)
Lemma deliver_until_closed (msg : string) (pre post : list conn_id) (c : conn_id) :
  ∀ w, Forall (writable w) pre → closed (conn_of w c) = true →
    ∃ w', for_each (pre ++ c :: post) (λ c, write_message c msg) w
            = (Raise WebSocketClosedError, w')
          ∧ SC w' = SC w
          ∧ ∀ x, conn_of w' x = received (occurrences pre x) msg (conn_of w x).
Proof.
  intros w Hpre Hc.
  destruct (deliver_all msg pre w Hpre) as (w' & Hrun & HSC & Hconn).
  exists w'. split_and!; [|done..].
  rewrite for_each_app, Hrun. cbn [for_each].
  erewrite bind_Raise; [done|]. apply write_message_closed.
  rewrite Hconn. cbn. exact Hc.
Qed.

Lemma write_message_same_SC (c : conn_id) (msg : string) :
  preserves same_SC (write_message c msg).
Proof. intros w. unfold write_message. by destruct (closed _). Qed.

Lemma write_message_flags (c : conn_id) (msg : string) (w : world) (x : conn_id) :
  _is_instructor (conn_of (write_message c msg w).2 x) = _is_instructor (conn_of w x).
Proof.
  unfold write_message. destruct (closed _); [done|]. cbn [snd].
  rewrite conn_of_with_conn. by destruct (decide (x = c)) as [->|].
Qed.

Lemma omap_cons {A B} (f : A → option B) (x : A) (l : list A) :
  omap f (x :: l) = match f x with Some y => y :: omap f l | None => omap f l end.
Proof. reflexivity. Qed.

Lemma write_loop_recipients (msg : string) (d : list (string * client_obj))
    (ks : list string) :
  (∀ k, k ∈ ks → is_Some (Dict.get d k)) →
  ∀ w, clients (SC w) = d →
    for_each ks (λ nick, let! o := clients_getitem nick in
                         write_message (co_connection o) msg) w
    = for_each (omap (λ nick, co_connection <$> Dict.get d nick) ks)
               (λ c, write_message c msg) w.
Proof.
  induction ks as [|k ks IH]; intros Hks w Hd; [done|].
  destruct (Hks k) as [o Ho]; [left|].
  rewrite omap_cons, Ho. cbn [fmap option_fmap option_map for_each].
  apply bind_ext_at.
  - unfold bind, clients_getitem. by rewrite Hd, Ho.
  - intros [] w1 Hw1.
    pose proof (write_message_same_SC (co_connection o) msg w) as HSC.
    rewrite Hw1 in HSC. cbn in HSC. unfold same_SC in HSC.
    apply IH; [|by rewrite HSC].
    intros k' Hk'. apply Hks. by right.
Qed.

Lemma write_to_all_recipients (msg : string) (w : world) :
  write_to_all msg w = for_each (recipients w) (λ c, write_message c msg) w.
Proof.
  unfold write_to_all, recipients, bind, gets.
  apply write_loop_recipients; [|done].
  intros k. apply DictFacts.get_key_is_Some.
Qed.

Lemma write_loop_participants (msg : string) (d : list (string * client_obj))
    (flags : conn_id → bool) (ks : list string) :
  (∀ k, k ∈ ks → is_Some (Dict.get d k)) →
  ∀ w, clients (SC w) = d → (∀ x, _is_instructor (conn_of w x) = flags x) →
    for_each ks (λ nick,
      let! o := clients_getitem nick in
      let conn := co_connection o in
      let! is_instr := gets (λ w, _is_instructor (conn_of w conn)) in
      if negb is_instr then write_message conn msg else ret tt) w
    = for_each (filter (λ c, flags c = false)
                  (omap (λ nick, co_connection <$> Dict.get d nick) ks))
               (λ c, write_message c msg) w.
Proof.
  induction ks as [|k ks IH]; intros Hks w Hd Hflags; [done|].
  destruct (Hks k) as [o Ho]; [left|].
  assert (∀ k', k' ∈ ks → is_Some (Dict.get d k')) as Hks'.
  { intros k' Hk'. apply Hks. by right. }
  rewrite omap_cons, Ho. cbn [fmap option_fmap option_map for_each].
  rewrite filter_cons.
  assert (∀ w1, SC w1 = SC w →
            (∀ x, _is_instructor (conn_of w1 x) = _is_instructor (conn_of w x)) →
            for_each ks (λ nick,
              let! o := clients_getitem nick in
              let conn := co_connection o in
              let! is_instr := gets (λ w, _is_instructor (conn_of w conn)) in
              if negb is_instr then write_message conn msg else ret tt) w1
            = for_each (filter (λ c, flags c = false)
                          (omap (λ nick, co_connection <$> Dict.get d nick) ks))
                       (λ c, write_message c msg) w1) as IH'.
  { intros w1 HSC Hfl. apply IH; [done|by rewrite HSC|].
    intros x. by rewrite Hfl. }
  destruct (decide (flags (co_connection o) = false)) as [Hp|Hp].
  - cbn [for_each]. apply bind_ext_at.
    + unfold bind, clients_getitem, gets. rewrite Hd, Ho, Hflags, Hp. done.
    + intros [] w1 Hw1.
      pose proof (write_message_same_SC (co_connection o) msg w) as HSC.
      pose proof (write_message_flags (co_connection o) msg w) as Hfl.
      rewrite Hw1 in HSC, Hfl. by apply IH'.
  - apply not_false_is_true in Hp.
    cbn [for_each]. erewrite bind_Return; [by apply IH'|].
    unfold bind, clients_getitem, gets. rewrite Hd, Ho, Hflags, Hp. done.
Qed.

Lemma write_to_non_instructors_participants (msg : string) (w : world) :
  write_to_non_instructors msg w
  = for_each (participants w) (λ c, write_message c msg) w.
Proof.
  unfold write_to_non_instructors, participants, recipients, bind at 1, gets at 1.
  apply (write_loop_participants msg (clients (SC w))
           (λ x, _is_instructor (conn_of w x))); [|done..].
  intros k. apply DictFacts.get_key_is_Some.
Qed.

Lemma write_to_all_same_SC (msg : string) : preserves same_SC (write_to_all msg).
Proof.
  intros w. rewrite write_to_all_recipients.
  apply preserves_for_each; [tc_solve|].
  intros c. apply write_message_same_SC.
Qed.

Lemma write_to_non_instructors_same_SC (msg : string) :
  preserves same_SC (write_to_non_instructors msg).
Proof.
  intros w. rewrite write_to_non_instructors_participants.
  apply preserves_for_each; [tc_solve|].
  intros c. apply write_message_same_SC.
Qed.

(** A registered client is among the recipients of a broadcast. *)
Lemma registered_recipient (w : world) (nick : string) (o : client_obj) :
  Dict.get (clients (SC w)) nick = Some o → co_connection o ∈ recipients w.
Proof.
  intros Hget. unfold recipients. apply list_elem_of_omap.
  exists nick. split; [|by rewrite Hget].
  destruct (decide (nick ∈ Dict.keys (clients (SC w)))) as [|Hnin]; [done|].
  apply DictFacts.get_None in Hnin. congruence.
Qed.

Lemma occurrences_pos (cs : list conn_id) (c : conn_id) :
  c ∈ cs ↔ 0 < occurrences cs c.
Proof. rewrite list_elem_of_In. apply count_occ_In. Qed.

(** ** What each operation leaves alone *)

Lemma write_message_same_roles (c : conn_id) (msg : string) :
  preserves same_roles (write_message c msg).
Proof. intros w x. apply write_message_flags. Qed.

Lemma close_same_SC (c : conn_id) : preserves same_SC (close c).
Proof. done. Qed.

Lemma close_same_roles (c : conn_id) : preserves same_roles (close c).
Proof.
  intros w x. unfold close, modify. cbn [snd].
  rewrite conn_of_with_conn. by destruct (decide (x = c)) as [->|].
Qed.

Lemma set_nick_same_SC (c : conn_id) (nick : string) : preserves same_SC (set_nick c nick).
Proof. done. Qed.

Lemma set_instructor_same_SC (c : conn_id) (b : bool) :
  preserves same_SC (set_instructor c b).
Proof. done. Qed.

Lemma clients_getitem_preserves (R : relation world) `{!PreOrder R} (nick : string) :
  preserves R (clients_getitem nick).
Proof. intros w. unfold clients_getitem. destruct (Dict.get _ _); reflexivity. Qed.

Lemma write_to_all_same_roles (msg : string) : preserves same_roles (write_to_all msg).
Proof.
  intros w. rewrite write_to_all_recipients.
  apply preserves_for_each; [tc_solve|].
  intros c. apply write_message_same_roles.
Qed.

Lemma broadcast_nicklist_same_SC : preserves same_SC broadcast_nicklist.
Proof.
  unfold broadcast_nicklist. preserves_steps. apply write_to_all_same_SC.
Qed.

Lemma broadcast_nicklist_same_roles : preserves same_roles broadcast_nicklist.
Proof.
  unfold broadcast_nicklist. preserves_steps. apply write_to_all_same_roles.
Qed.

Lemma modify_flags_same_registry (f : SessionController → SessionController) :
  (∀ s, clients (f s) = clients s ∧ nicks (f s) = nicks s) →
  preserves same_registry (modify (with_SC f)).
Proof. intros Hf w. apply Hf. Qed.

Lemma broadcast_finish_presentation_same_registry :
  preserves same_registry broadcast_finish_presentation.
Proof.
  unfold broadcast_finish_presentation. preserves_steps;
    try (by apply modify_flags_same_registry).
  apply preserves_same_SC_registry, write_to_all_same_SC.
Qed.

Lemma broadcast_reveal_state_same_registry (state_txt : string) :
  preserves same_registry (broadcast_reveal_state state_txt).
Proof.
  unfold broadcast_reveal_state.
  apply preserves_same_SC_registry, write_to_non_instructors_same_SC.
Qed.

(** ** Removing a client *)

(** C3 (as the code has it). For every nick not present in the registry,
    [remove_client nick] raises [KeyError] at its first statement, before
    any effect: the registry, the set of nicks, the room state and every
    connection (nothing closed, nothing written) are unchanged. *)
Theorem remove_client_absent_raises_KeyError (w : world) (nick : string) :
  Dict.get (clients (SC w)) nick = None →
  remove_client nick w = (Raise (KeyError (Some nick)), w).
Proof.
  intros Hget. unfold remove_client.
  apply bind_Raise. unfold clients_getitem. by rewrite Hget.
Qed.

Lemma remove_client_absent_raises_KeyError_witness :
  Dict.get (clients (SC world_init)) "ghost" = None
  ∧ remove_client "ghost" world_init = (Raise (KeyError (Some "ghost")), world_init).
Proof.
  split; [reflexivity|].
  apply (remove_client_absent_raises_KeyError world_init "ghost"). reflexivity.
Defined.

(** C3 (as the specification has it) fails: removing a nick that is not
    registered does raise. *)
Lemma remove_client_absent_counterexample :
  Dict.get (clients (SC world_init)) "ghost" = None
  ∧ (remove_client "ghost" world_init).1 = Raise (KeyError (Some "ghost"))
  ∧ (remove_client "ghost" world_init).1 ≠ Return tt.
Proof. split_and!; [reflexivity..|discriminate]. Qed.

(** ** Failed writes *)

Lemma first_closed (w : world) (cs : list conn_id) :
  Exists (λ c, closed (conn_of w c) = true) cs →
  ∃ pre c post, cs = pre ++ c :: post
                ∧ Forall (writable w) pre ∧ closed (conn_of w c) = true.
Proof.
  induction cs as [|c cs IH]; intros Hex; [by apply Exists_nil in Hex|].
  destruct (closed (conn_of w c)) eqn:Hc.
  - exists [], c, cs. split_and!; [done|constructor|done].
  - apply Exists_cons in Hex as [Hex|Hex]; [congruence|].
    destruct (IH Hex) as (pre & c' & post & -> & Hpre & Hc').
    exists (c :: pre), c', post. split_and!; [done| |done].
    by constructor.
Qed.

Lemma occurrences_0 (cs : list conn_id) (c : conn_id) : c ∉ cs → occurrences cs c = 0.
Proof. rewrite list_elem_of_In. apply count_occ_not_In. Qed.

Section HandlerProperties.
Context `{Library}.


(** ** Dispatch *)

Lemma on_message_dispatch (self : conn_id) (message cmd : string) (w : world)
    (func : conn_id → list string → M unit) :
  head (Str.split "|" message) = Some cmd →
  Dict.get handlers ("handle_" +:+ cmd) = Some func →
  on_message self message w = func self (Str.split "|" message) w.
Proof.
  intros Hcmd Hfunc. unfold on_message.
  destruct (Str.split "|" message) as [|cmd' rest] eqn:Hsplit; [done|].
  injection Hcmd as ->.
  unfold getitem. cbn [lookup list_lookup].
  erewrite bind_Return; [|reflexivity].
  unfold getattr. rewrite Hfunc. by erewrite bind_Return.
Qed.

Lemma handlers_keys :
  Dict.keys handlers = (λ cmd, "handle_" +:+ cmd) <$> known_commands.
Proof. reflexivity. Qed.

(** A command without a handler makes [getattr] raise, and the exception
    leaves [on_message]; nothing was changed before. *)
Lemma on_message_unknown_command (self : conn_id) (message cmd : string) (w : world) :
  head (Str.split "|" message) = Some cmd →
  cmd ∉ known_commands →
  on_message self message w = (Raise (AttributeError ("handle_" +:+ cmd)), w).
Proof.
  intros Hcmd Hunknown. unfold on_message.
  destruct (Str.split "|" message) as [|cmd' rest] eqn:Hsplit; [done|].
  injection Hcmd as ->.
  unfold getitem. cbn [lookup list_lookup].
  erewrite bind_Return; [|reflexivity].
  apply bind_Raise. unfold getattr.
  destruct (Dict.get handlers ("handle_" +:+ cmd)) eqn:Hget; [|done].
  exfalso. apply Hunknown.
  assert ("handle_" +:+ cmd ∈ Dict.keys handlers) as Hin.
  { destruct (decide ("handle_" +:+ cmd ∈ Dict.keys handlers)) as [|Hnin]; [done|].
    apply DictFacts.get_None in Hnin. congruence. }
  rewrite handlers_keys in Hin. apply list_elem_of_fmap in Hin as (cmd' & Heq & Hin).
  by apply (inj (String.app "handle_")) in Heq as ->.
Qed.

(** C2 (what the code does at the failing input). The message ["bogus"]
    names no handler: [getattr] raises [AttributeError], which escapes
    [on_message]; the state is unchanged. *)
Theorem on_message_bogus_raises_AttributeError (self : conn_id) (w : world) :
  on_message self "bogus" w = (Raise (AttributeError "handle_bogus"), w).
Proof. by apply (on_message_unknown_command self "bogus" "bogus"); [|vm_compute; set_solver]. Qed.

(** C10. A [slide_changed] message with no payload has a single part, so
    [msg_parts[1]] in [handle_slide_changed] is out of bounds: the handler
    raises [IndexError] before it looks at the role of the sender, for the
    instructor and for a participant alike, and nothing is changed. *)
Theorem slide_changed_without_payload_IndexError (self : conn_id) (w : world) :
  Str.split "|" "slide_changed" = ["slide_changed"]
  ∧ ["slide_changed"] !! 1 = @None string
  ∧ on_message self "slide_changed" w = (Raise IndexError, w)
  ∧ (∀ command, handle_slide_changed self [command] w = (Raise IndexError, w)).
Proof.
  split_and!; [reflexivity..| |reflexivity].
  by rewrite (on_message_dispatch self "slide_changed" "slide_changed" w
                handle_slide_changed).
Qed.

(** ** Commands for the instructor only, sent by a participant *)

Lemma participant_start_presentation (self : conn_id) (msg_parts : list string)
    (w : world) :
  _is_instructor (conn_of w self) = false →
  handle_start_presentation self msg_parts w = (Return tt, w).
Proof.
  intros Hp. unfold handle_start_presentation, bind, is_instructor, gets.
  by rewrite Hp.
Qed.

Lemma participant_slide_changed (self : conn_id) (msg_parts : list string)
    (w : world) :
  _is_instructor (conn_of w self) = false →
  (handle_slide_changed self msg_parts w).2 = w.
Proof.
  intros Hp. unfold handle_slide_changed, bind, is_instructor, gets, getitem.
  destruct (msg_parts !! 1); cbn; [|done]. by rewrite Hp.
Qed.

Lemma participant_lock_follow_instructor (self : conn_id) (msg_parts : list string)
    (w : world) :
  _is_instructor (conn_of w self) = false →
  handle_lock_follow_instructor self msg_parts w = (Return tt, w).
Proof.
  intros Hp. unfold handle_lock_follow_instructor, bind, is_instructor, gets.
  by rewrite Hp.
Qed.

Lemma participant_lock_student_nav (self : conn_id) (msg_parts : list string)
    (w : world) :
  _is_instructor (conn_of w self) = false →
  handle_lock_student_nav self msg_parts w = (Return tt, w).
Proof.
  intros Hp. unfold handle_lock_student_nav, bind, is_instructor, gets.
  by rewrite Hp.
Qed.

Lemma participant_finish_presentation (self : conn_id) (msg_parts : list string)
    (w : world) :
  _is_instructor (conn_of w self) = false →
  handle_finish_presentation self msg_parts w = (Return tt, w).
Proof.
  intros Hp. unfold handle_finish_presentation, bind, is_instructor, gets.
  by rewrite Hp.
Qed.

(** C4. When a client whose connection is not the instructor's sends one
    of the five instructor-only commands ([start_presentation],
    [slide_changed], [lock_follow_instructor], [lock_student_nav],
    [finish_presentation]), the heap after [on_message] is the heap
    before: no field of the session controller changes and no message is
    written to any connection. *)
Theorem participant_instructor_only_command_no_effect
    (self : conn_id) (message cmd : string) (w : world) :
  _is_instructor (conn_of w self) = false →
  head (Str.split "|" message) = Some cmd →
  cmd ∈ instructor_only_commands →
  (on_message self message w).2 = w.
Proof.
  intros Hp Hcmd Hin. unfold instructor_only_commands in Hin.
  repeat (apply elem_of_cons in Hin as [->|Hin]).
  - erewrite on_message_dispatch; [|done|reflexivity].
    by rewrite participant_start_presentation.
  - erewrite on_message_dispatch; [|done|reflexivity].
    by apply participant_slide_changed.
  - erewrite on_message_dispatch; [|done|reflexivity].
    by rewrite participant_lock_follow_instructor.
  - erewrite on_message_dispatch; [|done|reflexivity].
    by rewrite participant_lock_student_nav.
  - erewrite on_message_dispatch; [|done|reflexivity].
    by rewrite participant_finish_presentation.
  - by apply elem_of_nil in Hin.
Qed.

(** ** Finishing the presentation *)

(** C7 (as the code has it). When the instructor's connection sends
    [finish_presentation] and every registered connection accepts the
    write, then whatever the flags were before: [_presentation_started] becomes false,
    [_follow_instructor] and [_lock_student_nav] both become [True], and
    the message ["finish_presentation"] (the command name alone) is
    written once to the connection of every registered client, the
    instructor's included; the registry is as before. *)
Theorem finish_presentation_resets_and_notifies
    (self : conn_id) (msg_parts : list string) (w : world) :
  _is_instructor (conn_of w self) = true →
  Forall (writable w) (recipients w) →
  ∃ w', handle_finish_presentation self msg_parts w = (Return tt, w')
        ∧ _presentation_started (SC w') = false
        ∧ _follow_instructor (SC w') = JBool true
        ∧ _lock_student_nav (SC w') = JBool true
        ∧ clients (SC w') = clients (SC w)
        ∧ nicks (SC w') = nicks (SC w)
        ∧ _latest_instructor_state (SC w') = _latest_instructor_state (SC w)
        ∧ (∀ x, conn_of w' x
                = received (occurrences (recipients w) x) "finish_presentation"
                           (conn_of w x))
        ∧ (∀ nick o, Dict.get (clients (SC w)) nick = Some o →
                     0 < occurrences (recipients w) (co_connection o)).
Proof.
  intros Hinstr Hopen.
  destruct (deliver_all "finish_presentation" (recipients w) w Hopen)
    as (w1 & Hrun & HSC & Hconn).
  exists (with_SC (set_lock_student_nav (JBool true))
            (with_SC (set_follow_instructor (JBool true))
               (with_SC (set_presentation_started false) w1))).
  split_and!; try (cbn; by rewrite ?HSC).
  - unfold handle_finish_presentation.
    erewrite bind_Return; [|reflexivity]. rewrite Hinstr. cbn [negb].
    unfold broadcast_finish_presentation. cbn [String.concat].
    erewrite bind_Return; [|by rewrite write_to_all_recipients]. reflexivity.
  - intros nick o Hget. apply occurrences_pos. by eapply registered_recipient.
Qed.

(** ** Synchronising with the instructor *)

(** C8 (as the code has it). [sync_to_instructor] depends on who sends
    it. Sent by a participant whose connection is open, the message
    ["instructor_state|" ++ _latest_instructor_state] is written once to
    that connection and to no other. Sent by the instructor, while the
    participants' connections are open, it is written to every registered
    connection that is not an instructor's, and to no instructor's
    connection, the sender's included. The session controller is
    unchanged in both cases. *)
Theorem sync_to_instructor_asymmetric
    (self : conn_id) (msg_parts : list string) (w : world) :
  let msg := "instructor_state|" +:+ _latest_instructor_state (SC w) in
  (if _is_instructor (conn_of w self)
   then Forall (writable w) (participants w)
   else writable w self) →
  ∃ w', handle_sync_to_instructor self msg_parts w = (Return tt, w')
        ∧ SC w' = SC w
        ∧ (∀ x, conn_of w' x
                = received
                    (if _is_instructor (conn_of w self)
                     then occurrences (participants w) x
                     else if bool_decide (x = self) then 1 else 0)
                    msg (conn_of w x))
        ∧ (∀ x, _is_instructor (conn_of w x) = true →
                occurrences (participants w) x = 0)
        ∧ (∀ nick o, Dict.get (clients (SC w)) nick = Some o →
                     _is_instructor (conn_of w (co_connection o)) = false →
                     0 < occurrences (participants w) (co_connection o)).
Proof.
  intros msg Hopen.
  assert (∀ x, _is_instructor (conn_of w x) = true →
               occurrences (participants w) x = 0) as Hinstr0.
  { intros x Hx. apply occurrences_0. unfold participants.
    rewrite list_elem_of_filter. intros [Hp _]. congruence. }
  assert (∀ nick o, Dict.get (clients (SC w)) nick = Some o →
                    _is_instructor (conn_of w (co_connection o)) = false →
                    0 < occurrences (participants w) (co_connection o)) as Hpart.
  { intros nick o Hget Hp. apply occurrences_pos. unfold participants.
    apply list_elem_of_filter. split; [done|]. by eapply registered_recipient. }
  unfold handle_sync_to_instructor.
  erewrite bind_Return; [|reflexivity].
  erewrite bind_Return; [|reflexivity].
  destruct (_is_instructor (conn_of w self)) eqn:Hrole.
  - destruct (deliver_all msg (participants w) w Hopen) as (w' & Hrun & HSC & Hconn).
    exists w'. split_and!; try done.
    unfold broadcast_reveal_state.
    by rewrite write_to_non_instructors_participants.
  - exists (with_conn self (received 1 msg) w). split_and!; try done.
    + by apply write_message_open.
    + intros x. rewrite conn_of_with_conn. case_bool_decide as Hx.
      * subst x. by destruct (decide (self = self)).
      * destruct (decide (x = self)); [done|]. by rewrite received_0.
Qed.

End HandlerProperties.

(** ** The registry *)

(** What a registration does to the session: the entry it inserts, the
    nick it adds and the role it gives to the connection. *)
Lemma add_client_effect (initial_nick : string) (conn : conn_id) (w : world) :
  ∃ final_nick,
    get_safe_nick (nicks (SC w)) initial_nick = Some final_nick
    ∧ (final_nick ∉ nicks (SC w))
    ∧ clients (SC (add_client initial_nick conn w).2)
      = Dict.set (clients (SC w)) final_nick
          (mkClient final_nick conn (bool_decide (clients (SC w) = [])))
    ∧ nicks (SC (add_client initial_nick conn w).2) = {[ final_nick ]} ∪ nicks (SC w)
    ∧ (∀ x, _is_instructor (conn_of (add_client initial_nick conn w).2 x)
            = if decide (x = conn)
              then bool_decide (clients (SC w) = []) || _is_instructor (conn_of w conn)
              else _is_instructor (conn_of w x)).
Proof.
  destruct (get_safe_nick_returns (nicks (SC w)) initial_nick) as [final_nick Hfinal].
  exists final_nick. split; [done|]. split; [by eapply get_safe_nick_fresh|].
  assert (preserves same_SC (broadcast_nicklist ;;! ret final_nick)) as HSC.
  { preserves_steps. apply broadcast_nicklist_same_SC. }
  assert (preserves same_roles (broadcast_nicklist ;;! ret final_nick)) as Hroles.
  { preserves_steps. apply broadcast_nicklist_same_roles. }
  unfold add_client.
  erewrite bind_Return; [|unfold get_safe_nick_m; by rewrite Hfinal].
  erewrite bind_Return; [|reflexivity].
  destruct (clients (SC w)) as [|kv d] eqn:Hd; cbn [List.length Nat.eqb].
  - erewrite bind_Return; [|reflexivity].
    erewrite bind_Return; [|reflexivity].
    erewrite bind_Return; [|reflexivity].
    match goal with |- context [(bind _ _ ?w0).2] =>
      specialize (HSC w0); specialize (Hroles w0) end.
    unfold same_SC in HSC. unfold same_roles in Hroles.
    rewrite HSC. split_and!.
    + cbn. by rewrite Hd.
    + done.
    + intros x. rewrite Hroles, !conn_of_with_SC, conn_of_with_conn.
      destruct (decide (x = conn)); done.
  - erewrite bind_Return; [|reflexivity].
    erewrite bind_Return; [|reflexivity].
    erewrite bind_Return; [|reflexivity].
    match goal with |- context [(bind _ _ ?w0).2] =>
      specialize (HSC w0); specialize (Hroles w0) end.
    unfold same_SC in HSC. unfold same_roles in Hroles.
    rewrite HSC. split_and!.
    + cbn. by rewrite Hd.
    + done.
    + intros x. rewrite Hroles, !conn_of_with_SC.
      destruct (decide (x = conn)) as [->|]; done.
Qed.

Lemma nicks_remove_then {A} (nick : string) (k : M A) (w : world) :
  (nicks_remove nick ;;! k) w
  = if bool_decide (nick ∈ nicks (SC w))
    then k (with_SC (λ s, set_nicks (nicks s ∖ {[ nick ]}) s) w)
    else (Raise (KeyError (Some nick)), w).
Proof. unfold bind, nicks_remove. by destruct (bool_decide _). Qed.

Lemma remove_client_effect (nick : string) (w : world) :
  match Dict.get (clients (SC w)) nick with
  | None => (remove_client nick w).2 = w
  | Some o =>
      clients (SC (remove_client nick w).2) = Dict.del (clients (SC w)) nick
      ∧ nicks (SC (remove_client nick w).2)
        = (if bool_decide (nick ∈ nicks (SC w))
           then nicks (SC w) ∖ {[ nick ]} else nicks (SC w))
  end.
Proof.
  destruct (Dict.get (clients (SC w)) nick) as [o|] eqn:Hget.
  - unfold remove_client.
    erewrite bind_Return; [|unfold clients_getitem; by rewrite Hget].
    erewrite bind_Return; [|reflexivity].
    erewrite bind_Return; [|reflexivity].
    rewrite nicks_remove_then.
    cbn [SC with_SC with_conn nicks set_clients].
    destruct (bool_decide (nick ∈ nicks (SC w))) eqn:Hin; [|done].
    match goal with |- context [(broadcast_nicklist ?w0).2] =>
      pose proof (broadcast_nicklist_same_SC w0) as HSC end.
    unfold same_SC in HSC. rewrite HSC. done.
  - unfold remove_client. erewrite bind_Raise; [done|].
    unfold clients_getitem. by rewrite Hget.
Qed.

#[local] Hint Resolve write_message_same_SC write_to_all_same_SC
  write_to_non_instructors_same_SC close_same_SC set_nick_same_SC
  set_instructor_same_SC broadcast_nicklist_same_SC : preserves.
#[local] Hint Resolve preserves_same_SC_registry modify_flags_same_registry
  broadcast_finish_presentation_same_registry
  broadcast_reveal_state_same_registry : preserves.

Lemma registry_inv_init : registry_inv SessionController_init.
Proof.
  split_and!; cbn.
  - constructor.
  - intros n. set_solver.
  - done.
Qed.

Lemma registry_inv_same (w w' : world) :
  same_registry w w' → registry_inv (SC w) → registry_inv (SC w').
Proof. unfold registry_inv. by intros [-> ->]. Qed.

Lemma instructor_first_all (d : list (string * client_obj)) :
  Forall (λ kv, co_instructor kv.2 = false) d → instructor_first d.
Proof. destruct d as [|kv d]; [done|]. cbn. by intros [_ ?]%Forall_cons. Qed.

Lemma instructor_first_del (d : list (string * client_obj)) (k : string) :
  instructor_first d → instructor_first (Dict.del d k).
Proof.
  destruct d as [|[k' v'] d]; [done|]. cbn. intros Hd.
  destruct (String.eqb k' k).
  - by apply instructor_first_all, DictFacts.Forall_del.
  - cbn. by apply DictFacts.Forall_del.
Qed.

(** Registering keeps the registry well formed: the entry is new, it is
    appended, and it is the instructor's exactly when it is the first. *)
Lemma add_client_appends (initial_nick : string) (conn : conn_id) (w : world) :
  registry_inv (SC w) →
  ∃ final_nick,
    get_safe_nick (nicks (SC w)) initial_nick = Some final_nick
    ∧ (final_nick ∉ Dict.keys (clients (SC w)))
    ∧ clients (SC (add_client initial_nick conn w).2)
      = clients (SC w)
        ++ [(final_nick,
             mkClient final_nick conn (bool_decide (clients (SC w) = [])))]
    ∧ nicks (SC (add_client initial_nick conn w).2) = {[ final_nick ]} ∪ nicks (SC w).
Proof.
  intros (Hnd & Hnicks & Hfirst).
  destruct (add_client_effect initial_nick conn w)
    as (final_nick & Hfinal & Hfresh & Hclients & Hnicks' & _).
  exists final_nick. rewrite Hnicks in Hfresh. split_and!; try done.
  by rewrite Hclients, DictFacts.set_fresh.
Qed.

Lemma registry_inv_add_client (initial_nick : string) (conn : conn_id) (w : world) :
  registry_inv (SC w) → registry_inv (SC (add_client initial_nick conn w).2).
Proof.
  intros Hinv.
  destruct (add_client_appends initial_nick conn w Hinv)
    as (final_nick & _ & Hfresh & Hclients & Hnicks').
  destruct Hinv as (Hnd & Hnicks & Hfirst).
  unfold registry_inv. rewrite Hclients, Hnicks'. unfold Dict.keys in *.
  rewrite fmap_app. cbn [fmap list_fmap fst]. split_and!.
  - apply NoDup_app. split_and!; [done| |apply NoDup_singleton].
    intros n Hn Hn'. apply list_elem_of_singleton in Hn'. by subst n.
  - intros n. rewrite elem_of_union, elem_of_singleton, elem_of_app,
      list_elem_of_singleton, Hnicks. tauto.
  - destruct (clients (SC w)) as [|kv d]; [by constructor|].
    cbn in *. apply Forall_app. split; [done|].
    constructor; [|constructor]. reflexivity.
Qed.

Lemma registry_inv_remove_client (nick : string) (w : world) :
  registry_inv (SC w) → registry_inv (SC (remove_client nick w).2).
Proof.
  intros (Hnd & Hnicks & Hfirst).
  pose proof (remove_client_effect nick w) as Heff.
  destruct (Dict.get (clients (SC w)) nick) as [o|] eqn:Hget.
  - destruct Heff as [Hclients Hnicks'].
    assert (nick ∈ nicks (SC w)) as Hin.
    { apply Hnicks. destruct (decide (nick ∈ Dict.keys (clients (SC w)))); [done|].
      exfalso. apply DictFacts.get_None in n. congruence. }
    rewrite bool_decide_eq_true_2 in Hnicks' by done.
    unfold registry_inv. rewrite Hclients, Hnicks'. split_and!.
    + by apply DictFacts.NoDup_keys_del.
    + intros n. rewrite DictFacts.elem_of_keys_del, elem_of_difference,
        elem_of_singleton, Hnicks. tauto.
    + by apply instructor_first_del.
  - rewrite Heff. done.
Qed.

(** Among well-formed registry entries, two instructors are the same
    entry. *)
Lemma instructor_first_unique (d : list (string * client_obj))
    (n1 n2 : string) (o1 o2 : client_obj) :
  instructor_first d →
  Dict.get d n1 = Some o1 → Dict.get d n2 = Some o2 →
  co_instructor o1 = true → co_instructor o2 = true → n1 = n2.
Proof.
  destruct d as [|[k v] d]; [done|]. cbn. intros Htail.
  assert (∀ n o, Dict.get d n = Some o → co_instructor o = true → False) as Hno.
  { intros n o Hget Ho. apply DictFacts.get_Some_elem in Hget.
    rewrite Forall_forall in Htail. specialize (Htail _ Hget). cbn in Htail.
    congruence. }
  destruct (String.eqb_spec k n1) as [E1|_], (String.eqb_spec k n2) as [E2|_];
    [congruence|..]; intros; exfalso; eauto.
Qed.

Section RegistryProperties.
Context `{Library}.

Lemma loads_preserves (R : relation world) `{!PreOrder R} (text : string) :
  preserves R (loads text).
Proof. unfold loads. destruct (json_loads text); preserves_steps. Qed.

Lemma generate_start_presentation_msg_same_SC :
  preserves same_SC generate_start_presentation_msg.
Proof. unfold generate_start_presentation_msg. preserves_steps. Qed.

Lemma handle_start_presentation_same_registry (self : conn_id) (msg_parts : list string) :
  preserves same_registry (handle_start_presentation self msg_parts).
Proof.
  unfold handle_start_presentation, broadcast_start_presentation,
    generate_start_presentation_msg, is_instructor. preserves_steps.
Qed.

Lemma handle_slide_changed_same_registry (self : conn_id) (msg_parts : list string) :
  preserves same_registry (handle_slide_changed self msg_parts).
Proof.
  unfold handle_slide_changed, set_instructor_state, is_instructor.
  preserves_steps.
Qed.

Lemma handle_lock_follow_instructor_same_registry
    (self : conn_id) (msg_parts : list string) :
  preserves same_registry (handle_lock_follow_instructor self msg_parts).
Proof.
  unfold handle_lock_follow_instructor, is_instructor. preserves_steps.
  apply loads_preserves; tc_solve.
Qed.

Lemma handle_lock_student_nav_same_registry (self : conn_id) (msg_parts : list string) :
  preserves same_registry (handle_lock_student_nav self msg_parts).
Proof.
  unfold handle_lock_student_nav, broadcast_lock_student_nav, is_instructor.
  preserves_steps. apply loads_preserves; tc_solve.
Qed.

Lemma handle_sync_to_instructor_same_registry (self : conn_id) (msg_parts : list string) :
  preserves same_registry (handle_sync_to_instructor self msg_parts).
Proof.
  unfold handle_sync_to_instructor, get_instructor_state, is_instructor.
  preserves_steps.
Qed.

Lemma handle_finish_presentation_same_registry (self : conn_id) (msg_parts : list string) :
  preserves same_registry (handle_finish_presentation self msg_parts).
Proof. unfold handle_finish_presentation, is_instructor. preserves_steps. Qed.

Lemma handlers_same_registry (name : string)
    (func : conn_id → list string → M unit) (self : conn_id) (msg_parts : list string) :
  Dict.get handlers name = Some func →
  preserves same_registry (func self msg_parts).
Proof.
  intros Hget. apply DictFacts.get_Some_elem in Hget. unfold handlers in Hget.
  repeat (apply elem_of_cons in Hget as [Heq|Hget];
          [injection Heq as _ ->|]).
  - apply handle_start_presentation_same_registry.
  - apply handle_slide_changed_same_registry.
  - apply handle_lock_follow_instructor_same_registry.
  - apply handle_lock_student_nav_same_registry.
  - apply handle_sync_to_instructor_same_registry.
  - apply handle_finish_presentation_same_registry.
  - by apply elem_of_nil in Hget.
Qed.

Lemma on_message_same_registry (self : conn_id) (message : string) :
  preserves same_registry (on_message self message).
Proof.
  intros w. unfold on_message, getitem.
  destruct (Str.split "|" message !! 0) as [command|]; [|done].
  erewrite bind_Return; [|reflexivity].
  unfold getattr.
  destruct (Dict.get handlers ("handle_" +:+ command)) as [func|] eqn:Hfunc; [|done].
  erewrite bind_Return; [|reflexivity].
  by eapply handlers_same_registry.
Qed.

Lemma open_registry (self : conn_id) (initial_nick : string) (w : world) :
  SC (open self initial_nick w).2 = SC (add_client initial_nick self w).2.
Proof.
  unfold open.
  apply (preserves_bind_after same_SC). intros final_nick.
  unfold is_instructor, send_start_presentation, generate_start_presentation_msg.
  preserves_steps.
Qed.

Lemma step_registry_inv (e : event) (w : world) :
  registry_inv (SC w) → registry_inv (SC (step e w)).
Proof.
  intros Hinv. unfold step. destruct e as [c n|c|c m|n c|n|c]; cbn [handle_event].
  - rewrite open_registry. by apply registry_inv_add_client.
  - unfold on_close. erewrite bind_Return; [|reflexivity].
    destruct (_nick (conn_of w c)); [by apply registry_inv_remove_client|done].
  - eapply registry_inv_same; [apply on_message_same_registry|done].
  - pose proof (preserves_bind_after same_SC (add_client n c)
                  (λ _, ret tt) w) as HSC.
    unfold same_SC in HSC. rewrite HSC; [by apply registry_inv_add_client|].
    intros _. preserves_steps.
  - by apply registry_inv_remove_client.
  - done.
Qed.

Lemma reachable_registry_inv (w : world) : reachable w → registry_inv (SC w).
Proof.
  induction 1 as [|e w _ IH]; [apply registry_inv_init|by apply step_registry_inv].
Qed.

(** C5. In every state reached by registrations, unregistrations and any
    other events, at most one registered client is the instructor, and a
    registration makes its client the instructor exactly when the registry
    is empty at that moment: the entry it appends has ["instructor"] equal
    to [len(self.clients) == 0], and the connection's [_is_instructor] is
    set when the registry is empty and left alone otherwise. *)
Theorem reachable_at_most_one_instructor (w : world) :
  reachable w →
  (∀ n1 n2 o1 o2,
      Dict.get (clients (SC w)) n1 = Some o1 →
      Dict.get (clients (SC w)) n2 = Some o2 →
      co_instructor o1 = true → co_instructor o2 = true → n1 = n2)
  ∧ (∀ initial_nick conn, ∃ final_nick,
        get_safe_nick (nicks (SC w)) initial_nick = Some final_nick
        ∧ clients (SC (add_client initial_nick conn w).2)
          = clients (SC w)
            ++ [(final_nick,
                 mkClient final_nick conn (bool_decide (clients (SC w) = [])))]
        ∧ _is_instructor (conn_of (add_client initial_nick conn w).2 conn)
          = bool_decide (clients (SC w) = []) || _is_instructor (conn_of w conn)).
Proof.
  intros Hreach. pose proof (reachable_registry_inv w Hreach) as Hinv. split.
  - intros n1 n2 o1 o2. apply instructor_first_unique. apply Hinv.
  - intros initial_nick conn.
    destruct (add_client_appends initial_nick conn w Hinv)
      as (final_nick & Hfinal & _ & Hclients & _).
    destruct (add_client_effect initial_nick conn w)
      as (final_nick' & _ & _ & _ & _ & Hroles).
    exists final_nick. split_and!; [done..|].
    rewrite Hroles. by destruct (decide (conn = conn)).
Qed.

(** C6 (as the code has it). In every state reached by registrations with
    arbitrary requested names, unregistrations and any other events, the
    nicks in the registry are pairwise distinct and are exactly the
    elements of [nicks], and a registration adds a nick that differs from
    every registered one. (A nick may be the empty string.) *)
Theorem reachable_nicks_pairwise_distinct (w : world) :
  reachable w →
  NoDup (Dict.keys (clients (SC w)))
  ∧ (∀ n, n ∈ nicks (SC w) ↔ n ∈ Dict.keys (clients (SC w)))
  ∧ (∀ initial_nick conn, ∃ final_nick,
        get_safe_nick (nicks (SC w)) initial_nick = Some final_nick
        ∧ (final_nick ∉ Dict.keys (clients (SC w)))
        ∧ Dict.keys (clients (SC (add_client initial_nick conn w).2))
          = Dict.keys (clients (SC w)) ++ [final_nick]).
Proof.
  intros Hreach. pose proof (reachable_registry_inv w Hreach) as Hinv.
  split_and!; [apply Hinv..|].
  intros initial_nick conn.
  destruct (add_client_appends initial_nick conn w Hinv)
    as (final_nick & Hfinal & Hfresh & Hclients & _).
  exists final_nick. split_and!; [done..|].
  unfold Dict.keys. by rewrite Hclients, fmap_app.
Qed.

End RegistryProperties.

(** * Further properties of the code *)

(** ** Sanitizing and allocating nicks *)

Lemma is_word_not_space (c : ascii) : Str.is_word c = true → Str.is_space c = false.
Proof.
  destruct c as [[] [] [] [] [] [] [] []]; vm_compute; congruence.
Qed.

Lemma re_sub_delete_twice (cls : ascii → bool) (s : string) :
  Str.re_sub_delete cls (Str.re_sub_delete cls s) = Str.re_sub_delete cls s.
Proof.
  induction s as [|c s IH]; [done|]. cbn [Str.re_sub_delete].
  destruct (cls c) eqn:Hc; [done|]. cbn [Str.re_sub_delete]. by rewrite Hc, IH.
Qed.

Lemma re_sub_delete_all_chars (cls : ascii → bool) (s : string) :
  all_chars (λ c, negb (cls c)) (Str.re_sub_delete cls s) = true.
Proof.
  induction s as [|c s IH]; [done|]. cbn [Str.re_sub_delete].
  destruct (cls c) eqn:Hc; [done|]. cbn [all_chars]. by rewrite Hc, IH.
Qed.

Lemma re_sub_delete_id (cls : ascii → bool) (s : string) :
  Str.re_sub_delete cls s = s ↔ all_chars (λ c, negb (cls c)) s = true.
Proof.
  split.
  - intros <-. apply re_sub_delete_all_chars.
  - induction s as [|c s IH]; [done|]. cbn [all_chars Str.re_sub_delete].
    intros [Hc Hs]%andb_prop. apply negb_true_iff in Hc. rewrite Hc.
    by rewrite IH.
Qed.

Lemma sanitize_delete_non_word (s : string) :
  sanitize s = Str.re_sub_delete (λ c, negb (Str.is_word c)) s.
Proof.
  unfold sanitize. induction s as [|c s IH]; [done|]. cbn [Str.re_sub_delete].
  destruct (Str.is_word c) eqn:Hw; cbn [orb negb Str.re_sub_delete].
  - by rewrite (is_word_not_space c Hw), IH.
  - destruct (Str.is_space c) eqn:Hs; cbn [negb Str.re_sub_delete];
      by rewrite ?Hs, IH.
Qed.

Lemma all_chars_negb_negb (p : ascii → bool) (s : string) :
  all_chars (λ c, negb (negb (p c))) s = all_chars p s.
Proof.
  induction s as [|c s IH]; [done|]. cbn [all_chars]. by rewrite negb_involutive, IH.
Qed.

Lemma sanitize_all_word (s : string) : all_chars Str.is_word (sanitize s) = true.
Proof.
  rewrite sanitize_delete_non_word, <- all_chars_negb_negb.
  apply (re_sub_delete_all_chars (λ c, negb (Str.is_word c))).
Qed.

(** X1. The two substitutions of [get_safe_nick] together keep exactly the
    word characters of the request, in their order: the result consists
    of letters, digits and underscores only, sanitizing again changes
    nothing, and a request is returned as it is exactly when it consists
    of word characters only. *)
Theorem sanitize_keeps_word_characters (initial_nick : string) :
  sanitize initial_nick
    = Str.re_sub_delete (λ c, negb (Str.is_word c)) initial_nick
  ∧ all_chars Str.is_word (sanitize initial_nick) = true
  ∧ sanitize (sanitize initial_nick) = sanitize initial_nick
  ∧ (sanitize initial_nick = initial_nick
     ↔ all_chars Str.is_word initial_nick = true).
Proof.
  split_and!.
  - apply sanitize_delete_non_word.
  - apply sanitize_all_word.
  - rewrite !sanitize_delete_non_word. apply re_sub_delete_twice.
  - rewrite sanitize_delete_non_word, re_sub_delete_id.
    by rewrite all_chars_negb_negb.
Qed.

Lemma all_chars_app (p : ascii → bool) (s1 s2 : string) :
  all_chars p (s1 +:+ s2) = all_chars p s1 && all_chars p s2.
Proof.
  induction s1 as [|c s1 IH]; [done|].
  change (String c s1 +:+ s2) with (String c (s1 +:+ s2)).
  cbn [all_chars]. by rewrite IH, andb_assoc.
Qed.

Lemma pretty_N_char_is_word (x : N) : Str.is_word (pretty_N_char x) = true.
Proof. unfold pretty_N_char. by repeat case_match. Qed.

Lemma pretty_N_go_all_word (x : N) (s : string) :
  all_chars Str.is_word s = true → all_chars Str.is_word (pretty_N_go x s) = true.
Proof.
  revert s. induction (N.lt_wf_0 x) as [x _ IH]; intros s Hs.
  destruct (decide (x = 0)%N) as [->|Hx].
  - by rewrite pretty_N_go_0.
  - rewrite pretty_N_go_step by lia. apply IH; [apply N.div_lt; lia|].
    cbn [all_chars]. by rewrite pretty_N_char_is_word, Hs.
Qed.

(** [str(i)] consists of digits, which are word characters. *)
Lemma str_all_word (i : nat) : all_chars Str.is_word (Str.str i) = true.
Proof.
  unfold Str.str, pretty, pretty_nat, pretty, pretty_N.
  destruct (decide (N.of_nat i = 0)%N); [done|]. by apply pretty_N_go_all_word.
Qed.

Lemma get_safe_nick_loop_all_word (nicks : gset string) (fuel : nat) :
  ∀ (safe_nick : string) (i : nat) (r : string),
    all_chars Str.is_word safe_nick = true →
    get_safe_nick_loop fuel nicks safe_nick i = Some r →
    all_chars Str.is_word r = true.
Proof.
  induction fuel as [|fuel IH]; intros safe_nick i r Hw; [done|].
  cbn [get_safe_nick_loop]. case_bool_decide.
  - apply IH. by rewrite all_chars_app, Hw, str_all_word.
  - by intros [= <-].
Qed.

Lemma get_safe_nick_all_word (nicks : gset string) (initial_nick r : string) :
  get_safe_nick nicks initial_nick = Some r → all_chars Str.is_word r = true.
Proof.
  unfold get_safe_nick. intros Hr.
  eapply get_safe_nick_loop_all_word; [|exact Hr]. apply sanitize_all_word.
Qed.

(** X2. Whatever is requested and whatever is taken, [get_safe_nick]
    returns a nick that is not taken and that consists of letters, digits
    and underscores only; so no nick contains the delimiter ['|'], a
    space or an HTML metacharacter. *)
Theorem get_safe_nick_safe (nicks : gset string) (initial_nick : string) :
  ∃ safe_nick,
    get_safe_nick nicks initial_nick = Some safe_nick
    ∧ (safe_nick ∉ nicks)
    ∧ all_chars Str.is_word safe_nick = true
    ∧ all_chars (λ c, negb (Ascii.eqb c "|")) safe_nick = true.
Proof.
  destruct (get_safe_nick_returns nicks initial_nick) as [r Hr].
  pose proof (get_safe_nick_all_word nicks initial_nick r Hr) as Hw.
  exists r. split_and!; [done|by eapply get_safe_nick_fresh|done|].
  clear Hr. induction r as [|c r IH]; [done|].
  cbn [all_chars] in *. apply andb_prop in Hw as [Hc Hr].
  rewrite IH by done. rewrite andb_true_r.
  destruct (Ascii.eqb_spec c "|") as [->|]; [by vm_compute in Hc|done].
Qed.

(** ** Fields of a message *)

Lemma split_nonempty (sep : ascii) (s : string) : Str.split sep s ≠ [].
Proof.
  induction s as [|c s IH]; cbn [Str.split]; [done|].
  destruct (Ascii.eqb c sep); [done|]. by destruct (Str.split sep s).
Qed.

(** What follows a separator does not change the first field. *)
Lemma head_split_app (sep : ascii) (s t : string) :
  head (Str.split sep (s +:+ String sep t)) = head (Str.split sep s).
Proof.
  induction s as [|c s IH].
  - change (EmptyString +:+ String sep t) with (String sep t).
    cbn [Str.split]. by rewrite Ascii.eqb_refl.
  - change (String c s +:+ String sep t) with (String c (s +:+ String sep t)).
    cbn [Str.split]. destruct (Ascii.eqb c sep); [done|].
    pose proof (split_nonempty sep (s +:+ String sep t)) as Hne1.
    pose proof (split_nonempty sep s) as Hne2.
    destruct (Str.split sep (s +:+ String sep t)), (Str.split sep s); try done.
    cbn in *. congruence.
Qed.

(** ** What writes and attribute assignments keep *)

Ltac to_step :=
  first
    [ lazymatch goal with
      | |- preserves _ (write_message _ _) => apply to_write
      | |- preserves _ (modify (with_SC _)) => apply to_SC
      | |- preserves _ (clients_getitem _) => apply clients_getitem_preserves; tc_solve
      end
    | preserves_step ].

Ltac to_steps := repeat to_step.

Global Instance same_nick_attr_transport : TransportOnly same_nick_attr.
Proof.
  split.
  - split; [done|]. intros w1 w2 w3 H12 H23 x. by rewrite H23, H12.
  - intros c msg w x. unfold write_message. destruct (closed _); [done|].
    cbn [snd]. rewrite conn_of_with_conn. by destruct (decide (x = c)) as [->|].
  - done.
Qed.

Global Instance same_closed_transport : TransportOnly same_closed.
Proof.
  split.
  - split; [done|]. intros w1 w2 w3 H12 H23 x. by rewrite H23, H12.
  - intros c msg w x. unfold write_message.
    destruct (closed (conn_of w c)) eqn:Hc; [done|].
    cbn [snd]. rewrite conn_of_with_conn. by destruct (decide (x = c)) as [->|].
  - done.
Qed.

Global Instance same_roles_transport : TransportOnly same_roles.
Proof. split; [apply _|apply write_message_same_roles|done]. Qed.

Global Instance roles_kept_transport : TransportOnly roles_kept.
Proof.
  split.
  - split; [by intros w x|]. intros w1 w2 w3 H12 H23 x Hx. by apply H23, H12.
  - intros c msg w x. by rewrite write_message_flags.
  - by intros f w x.
Qed.

Global Instance closed_untouched_transport (c : conn_id) :
  TransportOnly (closed_untouched c).
Proof.
  split.
  - split; [by intros w Hc|]. intros w1 w2 w3 H12 H23 Hc.
    rewrite H23, H12; [done..|]. by rewrite H12.
  - intros c' msg w Hc. unfold write_message.
    destruct (closed (conn_of w c')) eqn:Hc'; [done|].
    cbn [snd]. rewrite conn_of_with_conn.
    destruct (decide (c = c')) as [->|]; [congruence|done].
  - by intros f w Hc.
Qed.

Section TransportOnlyFacts.
Context (R : relation world) `{!TransportOnly R}.

Lemma write_to_all_transport (msg : string) : preserves R (write_to_all msg).
Proof. unfold write_to_all. to_steps. Qed.

Lemma write_to_non_instructors_transport (msg : string) :
  preserves R (write_to_non_instructors msg).
Proof. unfold write_to_non_instructors. to_steps. Qed.

Lemma broadcast_nicklist_transport : preserves R broadcast_nicklist.
Proof. unfold broadcast_nicklist. to_steps. apply write_to_all_transport. Qed.

Lemma get_safe_nick_m_transport (initial_nick : string) :
  preserves R (get_safe_nick_m initial_nick).
Proof.
  intros w. unfold get_safe_nick_m. by destruct (get_safe_nick _ _).
Qed.

Lemma nicks_remove_transport (nick : string) : preserves R (nicks_remove nick).
Proof.
  intros w. unfold nicks_remove. destruct (bool_decide _); [|done].
  apply (to_SC (λ s, set_nicks (nicks s ∖ {[ nick ]}) s) w).
Qed.

Lemma remove_client_transport (nick : string) :
  (∀ c, preserves R (close c)) → preserves R (remove_client nick).
Proof.
  intros Hclose. unfold remove_client.
  to_steps; [apply nicks_remove_transport|apply broadcast_nicklist_transport].
Qed.

Lemma add_client_transport (initial_nick : string) (conn : conn_id) :
  preserves R (set_instructor conn true) →
  preserves R (add_client initial_nick conn).
Proof.
  intros Hset. unfold add_client. to_steps.
  - apply get_safe_nick_m_transport.
  - apply broadcast_nicklist_transport.
Qed.

Context `{Library}.

Lemma send_start_presentation_transport (connection : conn_id) :
  preserves R (send_start_presentation connection).
Proof. unfold send_start_presentation, generate_start_presentation_msg. to_steps. Qed.

Lemma handlers_transport (name : string)
    (func : conn_id → list string → M unit) (self : conn_id) (msg_parts : list string) :
  Dict.get handlers name = Some func →
  preserves R (func self msg_parts).
Proof.
  intros Hget. apply DictFacts.get_Some_elem in Hget. unfold handlers in Hget.
  repeat (apply elem_of_cons in Hget as [Heq|Hget];
          [injection Heq as _ ->|]).
  - unfold handle_start_presentation, broadcast_start_presentation,
      generate_start_presentation_msg, is_instructor. to_steps.
    apply write_to_all_transport.
  - unfold handle_slide_changed, set_instructor_state, broadcast_reveal_state,
      is_instructor. to_steps. apply write_to_non_instructors_transport.
  - unfold handle_lock_follow_instructor, is_instructor. to_steps.
    apply loads_preserves; tc_solve.
  - unfold handle_lock_student_nav, broadcast_lock_student_nav, is_instructor.
    to_steps; [apply loads_preserves; tc_solve|].
    apply write_to_non_instructors_transport.
  - unfold handle_sync_to_instructor, get_instructor_state, broadcast_reveal_state,
      is_instructor. to_steps. apply write_to_non_instructors_transport.
  - unfold handle_finish_presentation, broadcast_finish_presentation, is_instructor.
    to_steps. apply write_to_all_transport.
  - by apply elem_of_nil in Hget.
Qed.

Lemma on_message_transport (self : conn_id) (message : string) :
  preserves R (on_message self message).
Proof.
  intros w. unfold on_message, getitem.
  destruct (Str.split "|" message !! 0) as [command|]; [|done].
  erewrite bind_Return; [|reflexivity].
  unfold getattr.
  destruct (Dict.get handlers ("handle_" +:+ command)) as [func|] eqn:Hfunc; [|done].
  erewrite bind_Return; [|reflexivity].
  by eapply handlers_transport.
Qed.

End TransportOnlyFacts.

Global Instance written_extends_transport : TransportOnly written_extends.
Proof.
  split.
  - split.
    + intros w x. exists []. by rewrite app_nil_r.
    + intros w1 w2 w3 H12 H23 x.
      destruct (H12 x) as [m1 Hm1], (H23 x) as [m2 Hm2].
      exists (m1 ++ m2). by rewrite Hm2, Hm1, app_assoc.
  - intros c msg w x. unfold write_message.
    destruct (closed (conn_of w c)); [exists []; by rewrite app_nil_r|].
    cbn [snd]. rewrite conn_of_with_conn.
    destruct (decide (x = c)) as [->|].
    + by exists [msg].
    + exists []. by rewrite app_nil_r.
  - intros f w x. exists []. by rewrite app_nil_r.
Qed.

Section EventFacts.
Context `{Library}.

(** ** The dispatcher *)

Lemma handlers_payload_only (name : string)
    (func : conn_id → list string → M unit) :
  Dict.get handlers name = Some func →
  ∀ self p1 p2 w, p1 !! 1 = p2 !! 1 → func self p1 w = func self p2 w.
Proof.
  intros Hget self p1 p2 w Heq.
  apply DictFacts.get_Some_elem in Hget. unfold handlers in Hget.
  repeat (apply elem_of_cons in Hget as [Hh|Hget];
          [injection Hh as _ ->|]).
  - reflexivity.
  - unfold handle_slide_changed, getitem. by rewrite Heq.
  - unfold handle_lock_follow_instructor, getitem. by rewrite Heq.
  - unfold handle_lock_student_nav, getitem. by rewrite Heq.
  - reflexivity.
  - reflexivity.
  - by apply elem_of_nil in Hget.
Qed.

Lemma on_message_unfold (self : conn_id) (message : string) (w : world) :
  on_message self message w
  = match Str.split "|" message !! 0 with
    | None => (Raise IndexError, w)
    | Some command =>
        match Dict.get handlers ("handle_" +:+ command) with
        | Some func => func self (Str.split "|" message) w
        | None => (Raise (AttributeError ("handle_" +:+ command)), w)
        end
    end.
Proof.
  unfold on_message, getitem, getattr.
  destruct (Str.split "|" message !! 0) as [command|]; [|done].
  erewrite bind_Return; [|reflexivity].
  by destruct (Dict.get handlers ("handle_" +:+ command)).
Qed.

(** X3. The dispatcher and its handlers look at the first two fields of a
    message only: two messages that agree on the command name and on the
    field after it (such as ["slide_changed|3"] and
    ["slide_changed|3|anything"]) have the same outcome and leave the
    same state, whoever sends them. A payload is therefore cut at its
    first ['|']. *)
Theorem on_message_first_two_fields (self : conn_id) (m1 m2 : string) (w : world) :
  take 2 (Str.split "|" m1) = take 2 (Str.split "|" m2) →
  on_message self m1 w = on_message self m2 w.
Proof.
  intros Htake.
  assert (∀ i, i < 2 → Str.split "|" m1 !! i = Str.split "|" m2 !! i) as Hfield.
  { intros i Hi. by rewrite <- (lookup_take_lt _ 2 i), Htake, lookup_take_lt. }
  rewrite !on_message_unfold, (Hfield 0) by lia.
  destruct (Str.split "|" m2 !! 0) as [command|]; [|done].
  destruct (Dict.get handlers ("handle_" +:+ command)) as [func|] eqn:Hfunc; [|done].
  eapply handlers_payload_only; [done|]. apply Hfield. lia.
Qed.

(** X4. No message, from any sender, registers or unregisters a client,
    renames a connection, changes its role, closes it, or takes back
    something already written to it: [on_message] can only change the
    room flags and the stored instructor state and append messages. *)
Theorem on_message_keeps_registry_and_connections
    (self : conn_id) (message : string) (w : world) :
  clients (SC (on_message self message w).2) = clients (SC w)
  ∧ nicks (SC (on_message self message w).2) = nicks (SC w)
  ∧ ∀ x, _nick (conn_of (on_message self message w).2 x) = _nick (conn_of w x)
         ∧ _is_instructor (conn_of (on_message self message w).2 x)
           = _is_instructor (conn_of w x)
         ∧ closed (conn_of (on_message self message w).2 x) = closed (conn_of w x)
         ∧ ∃ more, written (conn_of (on_message self message w).2 x)
                   = written (conn_of w x) ++ more.
Proof.
  pose proof (on_message_same_registry self message w) as [Hc Hn].
  split_and!; [done..|]. intros x. split_and!.
  - apply (on_message_transport same_nick_attr).
  - apply (on_message_transport same_roles).
  - apply (on_message_transport same_closed).
  - apply (on_message_transport written_extends).
Qed.

(** ** Every event *)

Lemma open_preserves (R : relation world) `{!TransportOnly R}
    (self : conn_id) (initial_nick : string) :
  preserves R (set_instructor self true) →
  (∀ nick, preserves R (set_nick self nick)) →
  preserves R (open self initial_nick).
Proof.
  intros Hinstr Hnick. unfold open, is_instructor. to_steps.
  - by apply add_client_transport.
  - by apply send_start_presentation_transport.
Qed.

Lemma handle_event_preserves (R : relation world) `{!TransportOnly R} :
  (∀ c, preserves R (close c)) →
  (∀ c, preserves R (set_instructor c true)) →
  (∀ c nick, preserves R (set_nick c nick)) →
  ∀ e, preserves R (handle_event e).
Proof.
  intros Hclose Hinstr Hnick e.
  destruct e as [c n|c|c m|n c|n|c]; cbn [handle_event].
  - by apply open_preserves.
  - unfold on_close. to_steps.
    match goal with |- preserves _ (match ?o with _ => _ end) => destruct o end.
    + by apply remove_client_transport.
    + to_steps.
  - by apply on_message_transport.
  - to_steps. by apply add_client_transport.
  - by apply remove_client_transport.
  - apply Hclose.
Qed.

(** X5. No event takes the instructor role away from a connection:
    [set_instructor] is only ever called with [True], so a connection
    whose [_is_instructor] is set keeps it through every later event,
    also after it was unregistered; and nothing written to a connection
    is ever taken back. *)
Theorem event_keeps_role_and_written (e : event) (w : world) (x : conn_id) :
  (_is_instructor (conn_of w x) = true →
   _is_instructor (conn_of (step e w) x) = true)
  ∧ ∃ more, written (conn_of (step e w) x) = written (conn_of w x) ++ more.
Proof.
  split.
  - apply (handle_event_preserves roles_kept).
    + intros c w0 y. unfold close, modify. cbn [snd].
      rewrite conn_of_with_conn. by destruct (decide (y = c)) as [->|].
    + intros c w0 y. unfold set_instructor, modify. cbn [snd].
      rewrite conn_of_with_conn. by destruct (decide (y = c)) as [->|].
    + intros c nick w0 y. unfold set_nick, modify. cbn [snd].
      rewrite conn_of_with_conn. by destruct (decide (y = c)) as [->|].
  - apply (handle_event_preserves written_extends).
    + intros c w0 y. unfold close, modify. cbn [snd].
      rewrite conn_of_with_conn. exists [].
      rewrite app_nil_r. by destruct (decide (y = c)) as [->|].
    + intros c w0 y. unfold set_instructor, modify. cbn [snd].
      rewrite conn_of_with_conn. exists [].
      rewrite app_nil_r. by destruct (decide (y = c)) as [->|].
    + intros c nick w0 y. unfold set_nick, modify. cbn [snd].
      rewrite conn_of_with_conn. exists [].
      rewrite app_nil_r. by destruct (decide (y = c)) as [->|].
Qed.

(** ** Closing a connection *)

Lemma get_del_same {V} (d : list (string * V)) (k : string) :
  Dict.get (Dict.del d k) k = None.
Proof. apply DictFacts.get_None. rewrite DictFacts.elem_of_keys_del. tauto. Qed.

Lemma close_same_nick_attr (c : conn_id) : preserves same_nick_attr (close c).
Proof.
  intros w x. unfold close, modify. cbn [snd].
  rewrite conn_of_with_conn. by destruct (decide (x = c)) as [->|].
Qed.

(** X6. [on_close] is not idempotent: when it runs a second time for the
    same connection (whose [_nick] is set), [remove_client] finds the
    nick gone and raises [KeyError], and that second call changes
    nothing. *)
Theorem on_close_twice_raises_KeyError (self : conn_id) (nick : string) (w : world) :
  _nick (conn_of w self) = Some nick →
  on_close self (on_close self w).2
  = (Raise (KeyError (Some nick)), (on_close self w).2).
Proof.
  intros Hnick.
  assert (on_close self w = remove_client nick w) as Hfirst.
  { unfold on_close. erewrite bind_Return; [|reflexivity]. by rewrite Hnick. }
  rewrite Hfirst.
  assert (_nick (conn_of (remove_client nick w).2 self) = Some nick) as Hnick'.
  { rewrite <- Hnick.
    apply (remove_client_transport same_nick_attr nick close_same_nick_attr). }
  assert (Dict.get (clients (SC (remove_client nick w).2)) nick = None) as Hgone.
  { pose proof (remove_client_effect nick w) as Heff.
    destruct (Dict.get (clients (SC w)) nick) eqn:Hget.
    - destruct Heff as [-> _]. apply get_del_same.
    - by rewrite Heff. }
  remember (remove_client nick w).2 as w1 eqn:Hw1. clear Hw1 Hfirst.
  unfold on_close. erewrite bind_Return; [|reflexivity]. rewrite Hnick'.
  unfold remove_client. apply bind_Raise.
  unfold clients_getitem. by rewrite Hgone.
Qed.

End EventFacts.

(** ** Registering and unregistering *)

Lemma get_app_fresh {V} (d : list (string * V)) (k : string) (v : V) :
  k ∉ Dict.keys d → Dict.get (d ++ [(k, v)]) k = Some v.
Proof.
  unfold Dict.keys. induction d as [|[k' v'] d IH]; cbn.
  - by rewrite String.eqb_refl.
  - rewrite not_elem_of_cons. intros [Hne Hnin].
    destruct (String.eqb_spec k' k) as [->|_]; [done|]. by apply IH.
Qed.

Lemma get_app_old {V} (d l : list (string * V)) (k : string) :
  k ∈ Dict.keys d → Dict.get (d ++ l) k = Dict.get d k.
Proof.
  unfold Dict.keys. induction d as [|[k' v'] d IH]; cbn.
  - by intros ?%elem_of_nil.
  - rewrite elem_of_cons. intros Hin.
    destruct (String.eqb_spec k' k) as [->|Hne]; [done|].
    apply IH. by destruct Hin as [->|].
Qed.

Lemma del_app_fresh {V} (d : list (string * V)) (k : string) (v : V) :
  k ∉ Dict.keys d → Dict.del (d ++ [(k, v)]) k = d.
Proof.
  unfold Dict.keys. induction d as [|[k' v'] d IH]; cbn.
  - by rewrite String.eqb_refl.
  - rewrite not_elem_of_cons. intros [Hne Hnin].
    destruct (String.eqb_spec k' k) as [->|_]; [done|]. by rewrite IH.
Qed.

Lemma close_closed_untouched (c c' : conn_id) : preserves (closed_untouched c) (close c').
Proof.
  intros w Hc. unfold close, modify. cbn [snd]. rewrite conn_of_with_conn.
  destruct (decide (c = c')) as [<-|]; [|done].
  destruct (conn_of w c). cbn in *. by subst.
Qed.

(** The connection of an unregistered client is closed and then left
    alone. *)
Lemma remove_client_closes (w : world) (nick : string) (o : client_obj) :
  Dict.get (clients (SC w)) nick = Some o →
  closed (conn_of (remove_client nick w).2 (co_connection o)) = true
  ∧ written (conn_of (remove_client nick w).2 (co_connection o))
    = written (conn_of w (co_connection o)).
Proof.
  intros Hget.
  assert (conn_of (remove_client nick w).2 (co_connection o)
          = conn_of (close (co_connection o) w).2 (co_connection o)) as Hconn.
  { unfold remove_client.
    erewrite bind_Return; [|unfold clients_getitem; by rewrite Hget].
    erewrite bind_Return; [|reflexivity].
    match goal with |- conn_of (?rest ?w1).2 _ = _ =>
      assert (preserves (closed_untouched (co_connection o)) rest) as Hrest
    end.
    { to_steps; [apply nicks_remove_transport; tc_solve
                |apply broadcast_nicklist_transport; tc_solve]. }
    apply Hrest. unfold close, modify. cbn [snd].
    rewrite conn_of_with_conn. by destruct (decide _). }
  rewrite Hconn. unfold close, modify. cbn [snd].
  rewrite conn_of_with_conn. by destruct (decide _).
Qed.

Section RegistryFacts.
Context `{Library}.

(** X7. Unregistering a registered client takes effect whether or not the
    roster broadcast that follows succeeds: afterwards the nick is in
    neither the registry nor the set of nicks, the client's connection is
    closed, and nothing was written to that connection. *)
Theorem remove_client_unregisters (w : world) (nick : string) (o : client_obj) :
  reachable w →
  Dict.get (clients (SC w)) nick = Some o →
  clients (SC (remove_client nick w).2) = Dict.del (clients (SC w)) nick
  ∧ Dict.get (clients (SC (remove_client nick w).2)) nick = None
  ∧ (nick ∉ nicks (SC (remove_client nick w).2))
  ∧ closed (conn_of (remove_client nick w).2 (co_connection o)) = true
  ∧ written (conn_of (remove_client nick w).2 (co_connection o))
    = written (conn_of w (co_connection o)).
Proof.
  intros Hreach Hget.
  destruct (reachable_registry_inv w Hreach) as (Hnd & Hnicks & _).
  pose proof (remove_client_effect nick w) as Heff. rewrite Hget in Heff.
  destruct Heff as [Hclients Hnicks'].
  assert (nick ∈ nicks (SC w)) as Hin.
  { apply Hnicks. destruct (decide (nick ∈ Dict.keys (clients (SC w)))); [done|].
    exfalso. apply DictFacts.get_None in n. congruence. }
  rewrite bool_decide_eq_true_2 in Hnicks' by done.
  destruct (remove_client_closes w nick o Hget) as [Hclosed Hwritten].
  split_and!; [done| |rewrite Hnicks'; set_solver|done..].
  rewrite Hclients. apply get_del_same.
Qed.

(** X8. Removing the instructor promotes nobody: afterwards no entry of
    the registry is the instructor's and no connection's role has
    changed, so the room has no instructor until it is empty and a new
    client registers. *)
Theorem remove_instructor_promotes_nobody (w : world) (nick : string) (o : client_obj) :
  reachable w →
  Dict.get (clients (SC w)) nick = Some o →
  co_instructor o = true →
  Forall (λ kv, co_instructor kv.2 = false) (clients (SC (remove_client nick w).2))
  ∧ ∀ x, _is_instructor (conn_of (remove_client nick w).2 x)
         = _is_instructor (conn_of w x).
Proof.
  intros Hreach Hget Hinstr. split.
  - destruct (reachable_registry_inv w Hreach) as (_ & _ & Hfirst).
    pose proof (remove_client_effect nick w) as Heff. rewrite Hget in Heff.
    destruct Heff as [-> _].
    destruct (clients (SC w)) as [|[k v] d]; [done|].
    cbn in Hfirst, Hget |- *.
    destruct (String.eqb_spec k nick) as [->|Hne].
    + by apply DictFacts.Forall_del.
    + exfalso. apply DictFacts.get_Some_elem in Hget.
      rewrite Forall_forall in Hfirst. specialize (Hfirst _ Hget).
      cbn in Hfirst. congruence.
  - apply (remove_client_transport same_roles nick close_same_roles).
Qed.

(** X9. Registering a client and then unregistering the nick it was given
    restores the registry and the set of nicks exactly (the connection
    stays closed, and keeps the instructor role if it was given one). *)
Theorem add_client_then_remove_client_restores
    (w : world) (initial_nick : string) (conn : conn_id) :
  reachable w →
  ∃ final_nick,
    get_safe_nick (nicks (SC w)) initial_nick = Some final_nick
    ∧ clients (SC (remove_client final_nick (add_client initial_nick conn w).2).2)
      = clients (SC w)
    ∧ nicks (SC (remove_client final_nick (add_client initial_nick conn w).2).2)
      = nicks (SC w)
    ∧ closed (conn_of (remove_client final_nick (add_client initial_nick conn w).2).2
                      conn) = true.
Proof.
  intros Hreach. pose proof (reachable_registry_inv w Hreach) as Hinv.
  destruct (add_client_appends initial_nick conn w Hinv)
    as (final_nick & Hfinal & Hfresh & Hclients & Hnicks').
  exists final_nick. split; [done|].
  set (w1 := (add_client initial_nick conn w).2) in *.
  assert (Dict.get (clients (SC w1)) final_nick
          = Some (mkClient final_nick conn (bool_decide (clients (SC w) = []))))
    as Hget by (rewrite Hclients; by apply get_app_fresh).
  destruct (remove_client_closes w1 final_nick _ Hget) as [Hclosed _].
  cbn [co_connection] in Hclosed.
  pose proof (remove_client_effect final_nick w1) as Heff. rewrite Hget in Heff.
  destruct Heff as [Hdel Hnicks1].
  split_and!.
  - rewrite Hdel, Hclients. by apply del_app_fresh.
  - rewrite Hnicks1, Hnicks'.
    destruct Hinv as (_ & Hnicks & _).
    rewrite bool_decide_eq_true_2 by set_solver.
    assert (final_nick ∉ nicks (SC w)) by (by rewrite Hnicks). set_solver.
  - done.
Qed.

Lemma step_keys_word (e : event) (w : world) :
  registry_inv (SC w) →
  Forall (λ n, all_chars Str.is_word n = true) (Dict.keys (clients (SC w))) →
  Forall (λ n, all_chars Str.is_word n = true) (Dict.keys (clients (SC (step e w)))).
Proof.
  intros Hinv Hw.
  assert (∀ n c, Forall (λ n, all_chars Str.is_word n = true)
                   (Dict.keys (clients (SC (add_client n c w).2)))) as Hadd.
  { intros n c.
    destruct (add_client_appends n c w Hinv) as (final & Hfinal & _ & -> & _).
    unfold Dict.keys in *. rewrite fmap_app. apply Forall_app. split; [done|].
    constructor; [|constructor]. by eapply get_safe_nick_all_word. }
  assert (∀ n, Forall (λ n, all_chars Str.is_word n = true)
                 (Dict.keys (clients (SC (remove_client n w).2)))) as Hrem.
  { intros n. pose proof (remove_client_effect n w) as Heff.
    destruct (Dict.get (clients (SC w)) n).
    - destruct Heff as [-> _]. rewrite Forall_forall in Hw |- *.
      intros k Hk. apply Hw. by apply DictFacts.elem_of_keys_del in Hk as [? _].
    - by rewrite Heff. }
  unfold step. destruct e as [c n|c|c m|n c|n|c]; cbn [handle_event].
  - rewrite open_registry. apply Hadd.
  - unfold on_close. erewrite bind_Return; [|reflexivity].
    destruct (_nick (conn_of w c)); [apply Hrem|done].
  - by destruct (on_message_same_registry c m w) as [-> _].
  - pose proof (preserves_bind_after same_SC (add_client n c) (λ _, ret tt) w) as HSC.
    unfold same_SC in HSC. rewrite HSC; [apply Hadd|].
    intros _. preserves_steps.
  - apply Hrem.
  - done.
Qed.

(** X10. In every reachable state each registered nick consists of
    letters, digits and underscores only, whatever names were requested:
    no nick in the registry contains the delimiter, whitespace or
    markup. *)
Theorem reachable_nicks_word_characters (w : world) :
  reachable w →
  Forall (λ n, all_chars Str.is_word n = true) (Dict.keys (clients (SC w))).
Proof.
  induction 1 as [|e w Hreach IH]; [constructor|].
  apply step_keys_word; [by apply reachable_registry_inv|done].
Qed.

End RegistryFacts.

(** ** What the instructor's commands do *)

Section InstructorCommands.
Context `{Library}.

Lemma participants_with_SC (f : SessionController → SessionController) (w : world) :
  clients (f (SC w)) = clients (SC w) →
  participants (with_SC f w) = participants w.
Proof.
  intros Hf. unfold participants, recipients. cbn [SC with_SC]. by rewrite Hf.
Qed.

Lemma recipients_with_SC (f : SessionController → SessionController) (w : world) :
  clients (f (SC w)) = clients (SC w) →
  recipients (with_SC f w) = recipients w.
Proof. intros Hf. unfold recipients. cbn [SC with_SC]. by rewrite Hf. Qed.

(** X11. When the instructor sends [slide_changed] with a payload, the
    payload becomes the stored instructor state; if [_follow_instructor]
    is true in Python's sense (and the participants' connections are
    open) every registered connection that is not an instructor's gets
    ["instructor_state|" ++ payload], and if it is false nothing is
    written at all. The instructor's own connection is never written
    to. *)
Theorem instructor_slide_changed
    (self : conn_id) (command state_txt : string) (rest : list string) (w : world) :
  _is_instructor (conn_of w self) = true →
  (truthy (_follow_instructor (SC w)) = true → Forall (writable w) (participants w)) →
  ∃ w', handle_slide_changed self (command :: state_txt :: rest) w = (Return tt, w')
        ∧ SC w' = set_latest_instructor_state state_txt (SC w)
        ∧ (∀ x, conn_of w' x
                = received (if truthy (_follow_instructor (SC w))
                            then occurrences (participants w) x else 0)
                           ("instructor_state|" +:+ state_txt) (conn_of w x))
        ∧ conn_of w' self = conn_of w self.
Proof.
  intros Hinstr Hopen.
  assert (occurrences (participants w) self = 0) as Hself.
  { apply occurrences_0. unfold participants. rewrite list_elem_of_filter.
    intros [Hp _]. congruence. }
  unfold handle_slide_changed.
  erewrite bind_Return; [|reflexivity].
  erewrite bind_Return; [|reflexivity]. rewrite Hinstr.
  erewrite bind_Return; [|reflexivity].
  erewrite bind_Return; [|reflexivity]. cbn [SC with_SC set_latest_instructor_state
    _follow_instructor].
  destruct (truthy (_follow_instructor (SC w))) eqn:Hfollow.
  - set (w1 := with_SC (set_latest_instructor_state state_txt) w).
    destruct (deliver_all ("instructor_state|" +:+ state_txt) (participants w1) w1)
      as (w' & Hrun & HSC & Hconn).
    { unfold w1. rewrite participants_with_SC by done. by apply Hopen. }
    exists w'. unfold broadcast_reveal_state.
    rewrite write_to_non_instructors_participants.
    unfold w1 in Hconn. rewrite participants_with_SC in Hconn by done.
    split_and!; [done..|].
    by rewrite Hconn, Hself, conn_of_with_SC, received_0.
  - exists (with_SC (set_latest_instructor_state state_txt) w).
    split_and!; [done..| |done].
    intros x. by rewrite received_0.
Qed.

Lemma handle_slide_changed_stores
    (self : conn_id) (command state_txt : string) (rest : list string) (w : world) :
  _is_instructor (conn_of w self) = true →
  _latest_instructor_state
    (SC (handle_slide_changed self (command :: state_txt :: rest) w).2) = state_txt.
Proof.
  intros Hinstr. unfold handle_slide_changed.
  erewrite bind_Return; [|reflexivity].
  erewrite bind_Return; [|reflexivity]. rewrite Hinstr.
  erewrite bind_Return; [|reflexivity].
  match goal with |- _latest_instructor_state (SC (?rest ?w1).2) = _ =>
    assert (preserves same_SC rest) as Hrest
  end.
  { unfold broadcast_reveal_state. preserves_steps. }
  rewrite Hrest. reflexivity.
Qed.

(** X12. The stored state is what a later [sync_to_instructor] hands out:
    after the instructor's [slide_changed] with payload [s] (whether or
    not its broadcast succeeded), a participant on an open connection
    who asks to be synchronised gets exactly ["instructor_state|" ++ s]
    appended to its connection. *)
Theorem slide_changed_then_sync
    (instr p : conn_id) (command s : string) (rest parts : list string) (w : world) :
  _is_instructor (conn_of w instr) = true →
  _is_instructor (conn_of w p) = false →
  writable w p →
  handle_sync_to_instructor p parts
    (handle_slide_changed instr (command :: s :: rest) w).2
  = (Return tt,
     with_conn p (received 1 ("instructor_state|" +:+ s))
       (handle_slide_changed instr (command :: s :: rest) w).2).
Proof.
  intros Hinstr Hp Hopen.
  pose proof (handle_slide_changed_stores instr command s rest w Hinstr) as Hstate.
  assert (Dict.get handlers "handle_slide_changed" = Some handle_slide_changed)
    as Hh by reflexivity.
  pose proof (handlers_transport same_roles _ _ instr (command :: s :: rest) Hh w p)
    as Hrole.
  pose proof (handlers_transport same_closed _ _ instr (command :: s :: rest) Hh w p)
    as Hclosed.
  remember (handle_slide_changed instr (command :: s :: rest) w).2 as w1 eqn:Hw1.
  clear Hw1.
  unfold handle_sync_to_instructor.
  erewrite bind_Return; [|reflexivity].
  erewrite bind_Return; [|reflexivity].
  rewrite Hrole, Hp, Hstate. apply write_message_open.
  unfold writable. by rewrite Hclosed.
Qed.



(** X14. When the instructor sends [lock_student_nav] with a JSON payload
    and the participants' connections are open, [_lock_student_nav]
    becomes the parsed value and every registered connection that is not
    an instructor's gets ["lock_student_nav|" ++ json.dumps(value)]; the
    instructor's connection gets nothing. *)
Theorem instructor_lock_student_nav
    (self : conn_id) (command text : string) (rest : list string) (v : json)
    (w : world) :
  _is_instructor (conn_of w self) = true →
  json_loads text = Some v →
  Forall (writable w) (participants w) →
  ∃ w', handle_lock_student_nav self (command :: text :: rest) w = (Return tt, w')
        ∧ SC w' = set_lock_student_nav v (SC w)
        ∧ (∀ x, conn_of w' x
                = received (occurrences (participants w) x)
                           ("lock_student_nav|" +:+ json_dumps v) (conn_of w x))
        ∧ conn_of w' self = conn_of w self.
Proof.
  intros Hinstr Hv Hopen.
  assert (occurrences (participants w) self = 0) as Hself.
  { apply occurrences_0. unfold participants. rewrite list_elem_of_filter.
    intros [Hp _]. congruence. }
  unfold handle_lock_student_nav.
  erewrite bind_Return; [|reflexivity]. rewrite Hinstr. cbn [negb].
  erewrite bind_Return; [|reflexivity].
  erewrite bind_Return; [|unfold loads; by rewrite Hv].
  erewrite bind_Return; [|reflexivity].
  set (w1 := with_SC (set_lock_student_nav v) w).
  destruct (deliver_all ("lock_student_nav|" +:+ json_dumps v) (participants w1) w1)
    as (w' & Hrun & HSC & Hconn).
  { unfold w1. by rewrite participants_with_SC. }
  exists w'. unfold broadcast_lock_student_nav.
  rewrite write_to_non_instructors_participants.
  unfold w1 in Hconn. rewrite participants_with_SC in Hconn by done.
  split_and!; [done..|].
  by rewrite Hconn, Hself, conn_of_with_SC, received_0.
Qed.

(** X15. When the instructor sends [start_presentation] and the registered
    connections are open, every registered connection (the instructor's
    too) gets one [load_presentation] message that carries the source and
    the two flags as they are at that moment, and
    [_presentation_started] becomes true; nothing else changes. The
    command is not refused when a presentation is already running. *)
Theorem instructor_start_presentation
    (self : conn_id) (msg_parts : list string) (w : world) :
  _is_instructor (conn_of w self) = true →
  Forall (writable w) (recipients w) →
  ∃ w', handle_start_presentation self msg_parts w = (Return tt, w')
        ∧ SC w' = set_presentation_started true (SC w)
        ∧ ∀ x, conn_of w' x
               = received (occurrences (recipients w) x)
                   ("load_presentation|"
                    +:+ json_dumps
                          (JObject
                             [("source",
                               JString "/static/presentations/pres1/index.html");
                              ("follow_instructor", _follow_instructor (SC w));
                              ("lock_student_nav", _lock_student_nav (SC w))]))
                   (conn_of w x).
Proof.
  intros Hinstr Hopen.
  set (msg := "load_presentation|" +:+ _).
  destruct (deliver_all msg (recipients w) w Hopen) as (w1 & Hrun & HSC & Hconn).
  exists (with_SC (set_presentation_started true) w1).
  split_and!; [|by cbn; rewrite HSC|done].
  unfold handle_start_presentation.
  erewrite bind_Return; [|reflexivity]. rewrite Hinstr. cbn [negb].
  unfold broadcast_start_presentation.
  erewrite bind_Return; [|reflexivity].
  erewrite bind_Return; [|rewrite write_to_all_recipients; exact Hrun].
  reflexivity.
Qed.

End InstructorCommands.

(** ** Opening a connection *)

Lemma add_client_unfold (initial_nick final_nick : string) (conn : conn_id) (w : world) :
  get_safe_nick (nicks (SC w)) initial_nick = Some final_nick →
  add_client initial_nick conn w
  = (broadcast_nicklist ;;! ret final_nick) (add_client_state final_nick conn w).
Proof.
  intros Hfinal. unfold add_client, add_client_state.
  erewrite bind_Return; [|unfold get_safe_nick_m; by rewrite Hfinal].
  erewrite bind_Return; [|reflexivity].
  destruct (clients (SC w)) as [|kv d] eqn:Hd; cbn [List.length Nat.eqb].
  - rewrite bool_decide_eq_true_2 by done.
    erewrite bind_Return; [|reflexivity].
    erewrite bind_Return; [|reflexivity].
    erewrite bind_Return; [|reflexivity]. reflexivity.
  - rewrite bool_decide_eq_false_2 by done.
    erewrite bind_Return; [|reflexivity].
    erewrite bind_Return; [|reflexivity].
    erewrite bind_Return; [|reflexivity]. reflexivity.
Qed.

Lemma add_client_state_conn (final_nick : string) (conn x : conn_id) (w : world) :
  _nick (conn_of (add_client_state final_nick conn w) x) = _nick (conn_of w x)
  ∧ closed (conn_of (add_client_state final_nick conn w) x) = closed (conn_of w x)
  ∧ written (conn_of (add_client_state final_nick conn w) x) = written (conn_of w x)
  ∧ _is_instructor (conn_of (add_client_state final_nick conn w) x)
    = (bool_decide (x = conn) && bool_decide (clients (SC w) = []))
      || _is_instructor (conn_of w x).
Proof.
  unfold add_client_state. rewrite !conn_of_with_SC.
  destruct (bool_decide (clients (SC w) = [])).
  - rewrite conn_of_with_conn, conn_of_with_SC.
    destruct (decide (x = conn)) as [->|Hne].
    + rewrite bool_decide_eq_true_2 by done. done.
    + rewrite bool_decide_eq_false_2 by done. done.
  - by rewrite andb_false_r.
Qed.

Lemma add_client_state_registry (final_nick : string) (conn : conn_id) (w : world) :
  final_nick ∉ Dict.keys (clients (SC w)) →
  clients (SC (add_client_state final_nick conn w))
  = clients (SC w)
    ++ [(final_nick, mkClient final_nick conn (bool_decide (clients (SC w) = [])))]
  ∧ nicks (SC (add_client_state final_nick conn w)) = {[ final_nick ]} ∪ nicks (SC w)
  ∧ _presentation_started (SC (add_client_state final_nick conn w))
    = _presentation_started (SC w)
  ∧ _follow_instructor (SC (add_client_state final_nick conn w))
    = _follow_instructor (SC w)
  ∧ _lock_student_nav (SC (add_client_state final_nick conn w))
    = _lock_student_nav (SC w).
Proof.
  intros Hfresh. unfold add_client_state.
  destruct (bool_decide (clients (SC w) = [])); cbn;
    by rewrite DictFacts.set_fresh.
Qed.

Lemma recipients_append (w w1 : world) (k : string) (v : client_obj) :
  k ∉ Dict.keys (clients (SC w)) →
  clients (SC w1) = clients (SC w) ++ [(k, v)] →
  recipients w1 = recipients w ++ [co_connection v].
Proof.
  intros Hfresh Hclients. unfold recipients. rewrite Hclients.
  unfold Dict.keys. rewrite fmap_app, omap_app. f_equal.
  - apply list_omap_ext. apply Forall2_same_length_lookup_2; [done|].
    intros i k1 k2 Hk1 Hk2. assert (k1 = k2) as <- by congruence.
    rewrite get_app_old; [done|]. by eapply list_elem_of_lookup_2.
  - cbn. by rewrite get_app_fresh.
Qed.

Lemma occurrences_app (l1 l2 : list conn_id) (x : conn_id) :
  occurrences (l1 ++ l2) x = occurrences l1 x + occurrences l2 x.
Proof. apply count_occ_app. Qed.

Section Opening.
Context `{Library}.

(** X16. A client that opens a connection while every registered
    connection is open is welcomed in this order: the roster (which
    already lists its nick), then its panel, then, if a presentation is
    running, the [load_presentation] message with the current flags. Its
    [_nick] is the allocated nick; its [_is_instructor] is set exactly
    when the registry was empty (or was set before), and the panel is the
    instructor's in that case and otherwise the participant's, rendered
    with the current [_lock_student_nav]. Every other registered
    connection gets the roster and nothing else. *)
Theorem open_welcomes (self : conn_id) (initial_nick : string) (w : world) :
  reachable w →
  Forall (writable w) (recipients w) →
  writable w self →
  self ∉ recipients w →
  ∃ final_nick w',
    open self initial_nick w = (Return tt, w')
    ∧ get_safe_nick (nicks (SC w)) initial_nick = Some final_nick
    ∧ SC w' = SC (add_client_state final_nick self w)
    ∧ _nick (conn_of w' self) = Some final_nick
    ∧ _is_instructor (conn_of w' self)
      = bool_decide (clients (SC w) = []) || _is_instructor (conn_of w self)
    ∧ written (conn_of w' self)
      = written (conn_of w self)
        ++ [nicklist_msg (SC w');
            "panel_content|"
            +:+ (if bool_decide (clients (SC w) = [])
                    || _is_instructor (conn_of w self)
                 then render_file "instructor_panel.html" None
                 else render_file "participant_panel.html"
                        (Some [("navigation_locked", _lock_student_nav (SC w))]))]
        ++ (if _presentation_started (SC w)
            then ["load_presentation|"
                  +:+ json_dumps
                        (JObject
                           [("source",
                             JString "/static/presentations/pres1/index.html");
                            ("follow_instructor", _follow_instructor (SC w));
                            ("lock_student_nav", _lock_student_nav (SC w))])]
            else [])
    ∧ (∀ x, x ≠ self →
            conn_of w' x
            = received (occurrences (recipients w) x) (nicklist_msg (SC w'))
                       (conn_of w x)).
Proof.
  intros Hreach Hopen Hself Hnew.
  pose proof (reachable_registry_inv w Hreach) as Hinv.
  destruct (add_client_appends initial_nick self w Hinv)
    as (final_nick & Hfinal & Hfresh & _ & _).
  exists final_nick.
  set (w1 := add_client_state final_nick self w).
  destruct (add_client_state_registry final_nick self w Hfresh)
    as (Hclients & Hnicks & Hstarted & Hfollow & Hlock). fold w1 in Hclients, Hnicks,
    Hstarted, Hfollow, Hlock.
  pose proof (recipients_append w w1 _ _ Hfresh Hclients) as Hrec.
  cbn [co_connection] in Hrec.
  assert (∀ x, closed (conn_of w1 x) = closed (conn_of w x)) as Hclosed1
    by (intros x; apply add_client_state_conn).
  destruct (deliver_all (nicklist_msg (SC w1)) (recipients w1) w1)
    as (w2 & Hrun & HSC2 & Hconn2).
  { rewrite Hrec. apply Forall_app. split.
    - eapply Forall_impl; [exact Hopen|]. intros x Hx. unfold writable.
      by rewrite Hclosed1.
    - constructor; [|constructor]. unfold writable. by rewrite Hclosed1. }
  assert (add_client initial_nick self w = (Return final_nick, w2)) as Hadd.
  { rewrite (add_client_unfold _ final_nick) by done. fold w1.
    erewrite bind_Return; [reflexivity|].
    unfold broadcast_nicklist. erewrite bind_Return; [|reflexivity].
    by rewrite write_to_all_recipients. }
  assert (occurrences (recipients w1) self = 1) as Hocc.
  { rewrite Hrec, occurrences_app, (occurrences_0 (recipients w)) by done.
    unfold occurrences. cbn. by destruct (Nat.eq_dec self self). }
  (* the steps after the registration *)
  set (panel := "panel_content|" +:+
         (if _is_instructor (conn_of w2 self)
          then render_file "instructor_panel.html" None
          else render_file "participant_panel.html"
                 (Some [("navigation_locked", _lock_student_nav (SC w))]))).
  set (w3 := with_conn self (λ cn, mkConn (Some final_nick) (_is_instructor cn)
                                          (closed cn) (written cn)) w2).
  set (w4 := with_conn self (received 1 panel) w3).
  assert (closed (conn_of w2 self) = false) as Hclosed2.
  { rewrite Hconn2. cbn. rewrite Hclosed1. exact Hself. }
  assert (_is_instructor (conn_of w2 self)
          = bool_decide (clients (SC w) = []) || _is_instructor (conn_of w self))
    as Hrole2.
  { rewrite Hconn2. cbn.
    destruct (add_client_state_conn final_nick self self w) as (_ & _ & _ & Hi).
    fold w1 in Hi. rewrite Hi. by rewrite bool_decide_eq_true_2. }
  assert (open self initial_nick w
          = (if _presentation_started (SC w)
             then send_start_presentation self w4 else (Return tt, w4))) as Hopen_run.
  { unfold open. erewrite bind_Return; [|exact Hadd].
    erewrite bind_Return; [|reflexivity]. fold w3.
    erewrite bind_Return; [|reflexivity].
    assert (_is_instructor (conn_of w3 self) = _is_instructor (conn_of w2 self)) as Hi.
    { unfold w3. rewrite conn_of_with_conn. by destruct (decide (self = self)). }
    rewrite Hi.
    assert (writable w3 self) as Hw3.
    { unfold writable, w3. rewrite conn_of_with_conn.
      by destruct (decide (self = self)). }
    assert (_lock_student_nav (SC w3) = _lock_student_nav (SC w)) as Hl.
    { unfold w3. cbn [SC with_conn]. by rewrite HSC2, Hlock. }
    erewrite bind_Return.
    2:{ instantiate (1 := w4). instantiate (1 := tt). unfold w4, panel.
        destruct (_is_instructor (conn_of w2 self)).
        - by apply write_message_open.
        - erewrite bind_Return; [|reflexivity]. rewrite Hl.
          by apply write_message_open. }
    erewrite bind_Return; [|reflexivity].
    replace (_presentation_started (SC w4)) with (_presentation_started (SC w));
      [by destruct (_presentation_started (SC w))|].
    unfold w4, w3. cbn [SC with_conn]. by rewrite HSC2, Hstarted. }
  assert (∀ x, conn_of w4 x
               = if decide (x = self)
                 then mkConn (Some final_nick) (_is_instructor (conn_of w2 self))
                        false (written (conn_of w2 self) ++ [panel])
                 else conn_of w2 x) as Hconn4.
  { intros x. unfold w4, w3. rewrite !conn_of_with_conn.
    destruct (decide (x = self)) as [->|]; [|done].
    destruct (decide (self = self)); [|done]. unfold received. cbn.
    by rewrite Hclosed2. }
  assert (written (conn_of w2 self)
          = written (conn_of w self) ++ [nicklist_msg (SC w1)]) as Hwritten2.
  { rewrite Hconn2, Hocc. cbn. f_equal. apply add_client_state_conn. }
  assert (SC w4 = SC w1) as HSC4 by (unfold w4, w3; cbn [SC with_conn]; done).
  assert (∀ x, x ≠ self →
            conn_of w2 x
            = received (occurrences (recipients w) x) (nicklist_msg (SC w1))
                       (conn_of w x)) as Hothers.
  { intros x Hx. rewrite Hconn2, Hrec, occurrences_app.
    replace (occurrences [self] x) with 0.
    2:{ unfold occurrences. cbn. by destruct (Nat.eq_dec self x). }
    rewrite Nat.add_0_r. f_equal.
    destruct (add_client_state_conn final_nick self x w) as (Hn & Hc & Hwr & Hi).
    fold w1 in Hn, Hc, Hwr, Hi.
    rewrite bool_decide_eq_false_2 in Hi by done. cbn in Hi.
    destruct (conn_of w1 x), (conn_of w x). cbn in *. by subst. }
  rewrite Hopen_run.
  destruct (_presentation_started (SC w)) eqn:Hst.
  - set (load := "load_presentation|" +:+ _).
    exists (with_conn self (received 1 load) w4).
    assert (send_start_presentation self w4
            = (Return tt, with_conn self (received 1 load) w4)) as ->.
    { unfold send_start_presentation.
      erewrite bind_Return.
      2:{ unfold generate_start_presentation_msg.
          erewrite bind_Return; [|reflexivity].
          erewrite bind_Return; [|reflexivity]. reflexivity. }
      rewrite HSC4, Hfollow, Hlock. apply write_message_open.
      unfold writable. rewrite Hconn4. by destruct (decide (self = self)). }
    split_and!; try done.
    + rewrite conn_of_with_conn. destruct (decide (self = self)); [|done].
      cbn. rewrite Hconn4. by destruct (decide (self = self)).
    + rewrite conn_of_with_conn. destruct (decide (self = self)); [|done].
      cbn. rewrite Hconn4. by destruct (decide (self = self)).
    + rewrite !conn_of_with_conn. destruct (decide (self = self)); [|done].
      cbn. rewrite Hconn4. destruct (decide (self = self)); [|done].
      cbn. rewrite Hwritten2, ?HSC2, <- Hrole2. unfold panel.
      by rewrite <- !app_assoc.
    + intros x Hx. rewrite conn_of_with_conn.
      destruct (decide (x = self)); [done|].
      rewrite Hconn4. destruct (decide (x = self)); [done|].
      change (SC (with_conn self (received 1 load) w4)) with (SC w4).
      rewrite HSC4. by apply Hothers.
  - exists w4. split_and!; try done.
    + rewrite Hconn4. by destruct (decide (self = self)).
    + rewrite Hconn4. by destruct (decide (self = self)).
    + rewrite !Hconn4. destruct (decide (self = self)); [|done].
      cbn. rewrite Hwritten2, ?HSC2, <- Hrole2. unfold panel.
      by rewrite <- !app_assoc.
    + intros x Hx. rewrite Hconn4. destruct (decide (x = self)); [done|].
      rewrite HSC4. by apply Hothers.
Qed.

End Opening.

Section OpeningFailure.
Context `{Library}.

(** X17. If some registered connection is closed when a new client opens
    its connection, [open] raises from the roster broadcast after the
    client was put in the registry: the client stays registered as a
    participant under the allocated nick, but its connection's [_nick]
    was never set, so its own [on_close] raises [KeyError] and removes
    nothing. *)
Theorem open_with_closed_peer_leaves_entry
    (self : conn_id) (initial_nick : string) (w : world) :
  reachable w →
  Exists (λ c, closed (conn_of w c) = true) (recipients w) →
  _nick (conn_of w self) = None →
  ∃ final_nick w',
    get_safe_nick (nicks (SC w)) initial_nick = Some final_nick
    ∧ open self initial_nick w = (Raise WebSocketClosedError, w')
    ∧ Dict.get (clients (SC w')) final_nick = Some (mkClient final_nick self false)
    ∧ final_nick ∈ nicks (SC w')
    ∧ _nick (conn_of w' self) = None
    ∧ on_close self w' = (Raise (KeyError None), w').
Proof.
  intros Hreach Hex Hnick.
  pose proof (reachable_registry_inv w Hreach) as Hinv.
  destruct (add_client_appends initial_nick self w Hinv)
    as (final_nick & Hfinal & Hfresh & _ & _).
  exists final_nick.
  set (w1 := add_client_state final_nick self w).
  destruct (add_client_state_registry final_nick self w Hfresh)
    as (Hclients & Hnicks & _). fold w1 in Hclients, Hnicks.
  pose proof (recipients_append w w1 _ _ Hfresh Hclients) as Hrec.
  cbn [co_connection] in Hrec.
  assert (clients (SC w) ≠ []) as Hne.
  { intros Hempty. unfold recipients in Hex. rewrite Hempty in Hex.
    by apply Exists_nil in Hex. }
  rewrite bool_decide_eq_false_2 in Hclients by done.
  assert (Exists (λ c, closed (conn_of w1 c) = true) (recipients w1)) as Hex1.
  { rewrite Hrec. apply Exists_app. left.
    eapply Exists_impl; [exact Hex|]. intros x Hx.
    destruct (add_client_state_conn final_nick self x w) as (_ & Hcl & _).
    fold w1 in Hcl. by rewrite Hcl. }
  destruct (first_closed w1 _ Hex1) as (pre & c & post & Hsplit & Hpre & Hc).
  destruct (deliver_until_closed (nicklist_msg (SC w1)) pre post c w1 Hpre Hc)
    as (w2 & Hrun & HSC2 & Hconn2).
  exists w2.
  assert (_nick (conn_of w2 self) = None) as Hnick2.
  { rewrite Hconn2. cbn.
    destruct (add_client_state_conn final_nick self self w) as (Hn & _).
    fold w1 in Hn. by rewrite Hn. }
  split_and!.
  - done.
  - unfold open. apply bind_Raise.
    rewrite (add_client_unfold _ final_nick) by done. fold w1.
    apply bind_Raise. unfold broadcast_nicklist.
    erewrite bind_Return; [|reflexivity].
    by rewrite write_to_all_recipients, Hsplit.
  - rewrite HSC2, Hclients. by apply get_app_fresh.
  - rewrite HSC2, Hnicks. set_solver.
  - done.
  - unfold on_close. erewrite bind_Return; [|reflexivity]. by rewrite Hnick2.
Qed.

Lemma step_add_client (initial_nick : string) (c : conn_id) (w : world) :
  step (EvAddClient initial_nick c) w = (add_client initial_nick c w).2.
Proof.
  unfold step. cbn [handle_event]. unfold bind, ret.
  by destruct (add_client initial_nick c w) as [[?|?] ?].
Qed.

Lemma three_clients_reachable : reachable three_clients.
Proof.
  unfold three_clients. rewrite <- !step_add_client.
  do 3 apply reachable_step. apply reachable_init.
Qed.

Lemma bob_gone_reachable : reachable bob_gone.
Proof. apply (reachable_step (EvPeerGone 1)), three_clients_reachable. Qed.

Lemma reachable_run (es : list event) (w : world) :
  reachable w → reachable (run es w).
Proof.
  revert w. induction es as [|e es IH]; intros w Hw; [done|].
  apply IH. by apply reachable_step.
Qed.

End OpeningFailure.

(** ** The theorems at concrete states *)

Lemma three_clients_registry :
  Dict.keys (clients (SC three_clients)) = ["Ann"; "Bob"; "Cat"]
  ∧ recipients three_clients = [0; 1; 2]
  ∧ participants three_clients = [1; 2].
Proof. split_and!; by vm_compute. Qed.

Lemma participant_instructor_only_command_no_effect_witness :
  _is_instructor (conn_of three_clients 1) = false
  ∧ head (Str.split "|" "lock_student_nav|false") = Some "lock_student_nav"
  ∧ "lock_student_nav" ∈ instructor_only_commands
  ∧ (@on_message demo_library 1 "lock_student_nav|false" three_clients).2
    = three_clients.
Proof.
  assert (_is_instructor (conn_of three_clients 1) = false) as Hp
    by (vm_compute; reflexivity).
  assert (head (Str.split "|" "lock_student_nav|false") = Some "lock_student_nav")
    as Hcmd by reflexivity.
  assert ("lock_student_nav" ∈ instructor_only_commands) as Hin
    by (unfold instructor_only_commands; repeat constructor).
  split_and!; [exact Hp|exact Hcmd|exact Hin|].
  exact (@participant_instructor_only_command_no_effect demo_library
           1 "lock_student_nav|false" "lock_student_nav" three_clients Hp Hcmd Hin).
Defined.

Lemma reachable_at_most_one_instructor_witness :
  @reachable demo_library three_clients
  ∧ ∀ n1 n2 o1 o2,
      Dict.get (clients (SC three_clients)) n1 = Some o1 →
      Dict.get (clients (SC three_clients)) n2 = Some o2 →
      co_instructor o1 = true → co_instructor o2 = true → n1 = n2.
Proof.
  pose proof (@three_clients_reachable demo_library) as Hreach.
  split; [exact Hreach|].
  exact (proj1 (@reachable_at_most_one_instructor demo_library three_clients Hreach)).
Defined.

Lemma reachable_nicks_pairwise_distinct_witness :
  @reachable demo_library three_clients
  ∧ NoDup (Dict.keys (clients (SC three_clients))).
Proof.
  pose proof (@three_clients_reachable demo_library) as Hreach.
  split; [exact Hreach|].
  exact (proj1 (@reachable_nicks_pairwise_distinct demo_library three_clients Hreach)).
Defined.

(** C6 (as the specification has it) fails: a first client asking for the
    name "!!!" is registered under the empty nick. *)
Lemma empty_nick_counterexample :
  @reachable demo_library (@step demo_library (EvAddClient "!!!" 0) world_init)
  ∧ sanitize "!!!" = ""
  ∧ Dict.keys (clients (SC (@step demo_library (EvAddClient "!!!" 0) world_init)))
    = [""].
Proof.
  split_and!; [apply reachable_step, reachable_init|reflexivity|by vm_compute].
Qed.

Lemma finish_presentation_resets_and_notifies_witness :
  _is_instructor (conn_of three_clients 0) = true
  ∧ Forall (writable three_clients) (recipients three_clients)
  ∧ ∃ w', @handle_finish_presentation 0 ["finish_presentation"] three_clients
            = (Return tt, w')
          ∧ _presentation_started (SC w') = false
          ∧ _follow_instructor (SC w') = JBool true
          ∧ _lock_student_nav (SC w') = JBool true.
Proof.
  assert (_is_instructor (conn_of three_clients 0) = true) as Hi
    by (vm_compute; reflexivity).
  assert (Forall (writable three_clients) (recipients three_clients)) as Hopen
    by (apply (bool_decide_unpack _); vm_compute; exact I).
  split_and!; [exact Hi|exact Hopen|].
  destruct (finish_presentation_resets_and_notifies
              0 ["finish_presentation"] three_clients Hi Hopen)
    as (w' & Hrun & Hstarted & Hfollow & Hlock & _).
  exists w'. split_and!; assumption.
Defined.

Lemma sync_to_instructor_asymmetric_witness :
  writable three_clients 1
  ∧ Forall (writable three_clients) (participants three_clients)
  ∧ (∃ w', @handle_sync_to_instructor 1 ["sync_to_instructor"] three_clients
             = (Return tt, w')
           ∧ SC w' = SC three_clients)
  ∧ (∃ w', @handle_sync_to_instructor 0 ["sync_to_instructor"] three_clients
             = (Return tt, w')
           ∧ SC w' = SC three_clients).
Proof.
  assert (writable three_clients 1) as H1
    by (apply (bool_decide_unpack _); vm_compute; exact I).
  assert (Forall (writable three_clients) (participants three_clients)) as H0
    by (apply (bool_decide_unpack _); vm_compute; exact I).
  split_and!; [exact H1|exact H0| |].
  - destruct (sync_to_instructor_asymmetric 1 ["sync_to_instructor"] three_clients)
      as (w' & Hrun & HSC & _).
    { replace (_is_instructor (conn_of three_clients 1)) with false
        by (vm_compute; reflexivity). exact H1. }
    exists w'. split; assumption.
  - destruct (sync_to_instructor_asymmetric 0 ["sync_to_instructor"] three_clients)
      as (w' & Hrun & HSC & _).
    { replace (_is_instructor (conn_of three_clients 0)) with true
        by (vm_compute; reflexivity). exact H0. }
    exists w'. split; assumption.
Defined.


(** C7 (as the specification has it) fails: with the presentation
    running, both flags switched off and Bob's connection closed, the
    instructor's [finish_presentation] raises at Bob; the presentation
    stays started, both flags stay off and Cat, whose connection is open,
    is not written to. *)
Lemma finish_presentation_closed_peer_counterexample :
  @reachable demo_library flags_off_bob_gone
  ∧ _is_instructor (conn_of flags_off_bob_gone 0) = true
  ∧ Dict.keys (clients (SC flags_off_bob_gone)) = ["Ann"; "Bob"; "Cat"]
  ∧ closed (conn_of flags_off_bob_gone 2) = false
  ∧ (handle_finish_presentation 0 ["finish_presentation"] flags_off_bob_gone).1
    = Raise WebSocketClosedError
  ∧ _presentation_started
      (SC (handle_finish_presentation 0 ["finish_presentation"] flags_off_bob_gone).2)
    = true
  ∧ _follow_instructor
      (SC (handle_finish_presentation 0 ["finish_presentation"] flags_off_bob_gone).2)
    = JBool false
  ∧ _lock_student_nav
      (SC (handle_finish_presentation 0 ["finish_presentation"] flags_off_bob_gone).2)
    = JBool false
  ∧ written
      (conn_of (handle_finish_presentation 0 ["finish_presentation"]
                  flags_off_bob_gone).2 2)
    = written (conn_of flags_off_bob_gone 2).
Proof.
  split_and!; [apply (@reachable_run demo_library), reachable_init|by vm_compute..].
Qed.

(** C8 (as the specification has it) fails: with Bob's connection closed,
    the instructor's [sync_to_instructor] raises at Bob, and Cat, a
    registered participant whose connection is open, receives nothing; a
    [sync_to_instructor] handled for Bob's closed connection raises too
    and Bob receives nothing. *)
Lemma sync_to_instructor_closed_peer_counterexample :
  @reachable demo_library bob_gone
  ∧ _is_instructor (conn_of bob_gone 0) = true
  ∧ Dict.get (clients (SC bob_gone)) "Cat" = Some (mkClient "Cat" 2 false)
  ∧ _is_instructor (conn_of bob_gone 2) = false
  ∧ closed (conn_of bob_gone 2) = false
  ∧ (handle_sync_to_instructor 0 ["sync_to_instructor"] bob_gone).1
    = Raise WebSocketClosedError
  ∧ written (conn_of (handle_sync_to_instructor 0 ["sync_to_instructor"] bob_gone).2 2)
    = written (conn_of bob_gone 2)
  ∧ _is_instructor (conn_of bob_gone 1) = false
  ∧ (handle_sync_to_instructor 1 ["sync_to_instructor"] bob_gone).1
    = Raise WebSocketClosedError
  ∧ written (conn_of (handle_sync_to_instructor 1 ["sync_to_instructor"] bob_gone).2 1)
    = written (conn_of bob_gone 1).
Proof.
  split_and!; [apply (@bob_gone_reachable demo_library)|by vm_compute..].
Qed.


Lemma on_message_first_two_fields_witness :
  take 2 (Str.split "|" "slide_changed|3|junk")
  = take 2 (Str.split "|" "slide_changed|3")
  ∧ @on_message demo_library 0 "slide_changed|3|junk" three_clients
    = @on_message demo_library 0 "slide_changed|3" three_clients.
Proof.
  assert (take 2 (Str.split "|" "slide_changed|3|junk")
          = take 2 (Str.split "|" "slide_changed|3")) as Htake by reflexivity.
  split; [exact Htake|].
  exact (@on_message_first_two_fields demo_library 0 _ _ three_clients Htake).
Defined.

Lemma event_keeps_role_and_written_witness :
  _is_instructor (conn_of three_clients 0) = true
  ∧ _is_instructor
      (conn_of (@step demo_library (EvRemoveClient "Ann") three_clients) 0) = true.
Proof.
  assert (_is_instructor (conn_of three_clients 0) = true) as Hi
    by (vm_compute; reflexivity).
  split; [exact Hi|].
  exact (proj1 (@event_keeps_role_and_written demo_library
                  (EvRemoveClient "Ann") three_clients 0) Hi).
Defined.

Lemma on_close_twice_raises_KeyError_witness :
  _nick (conn_of (@step demo_library (EvOpen 0 "Ann") world_init) 0) = Some "Ann"
  ∧ @on_close 0 (@on_close 0 (@step demo_library (EvOpen 0 "Ann") world_init)).2
    = (Raise (KeyError (Some "Ann")),
       (@on_close 0 (@step demo_library (EvOpen 0 "Ann") world_init)).2).
Proof.
  assert (_nick (conn_of (@step demo_library (EvOpen 0 "Ann") world_init) 0)
          = Some "Ann") as Hnick by (vm_compute; reflexivity).
  split; [exact Hnick|].
  exact (on_close_twice_raises_KeyError 0 "Ann" _ Hnick).
Defined.

Lemma remove_client_unregisters_witness :
  @reachable demo_library three_clients
  ∧ Dict.get (clients (SC three_clients)) "Bob" = Some (mkClient "Bob" 1 false)
  ∧ Dict.get (clients (SC (remove_client "Bob" three_clients).2)) "Bob" = None
  ∧ closed (conn_of (remove_client "Bob" three_clients).2 1) = true.
Proof.
  pose proof (@three_clients_reachable demo_library) as Hreach.
  assert (Dict.get (clients (SC three_clients)) "Bob" = Some (mkClient "Bob" 1 false))
    as Hget by (vm_compute; reflexivity).
  destruct (@remove_client_unregisters demo_library three_clients "Bob" _ Hreach Hget)
    as (_ & Hgone & _ & Hclosed & _).
  split_and!; assumption.
Defined.

Lemma remove_instructor_promotes_nobody_witness :
  @reachable demo_library three_clients
  ∧ Dict.get (clients (SC three_clients)) "Ann" = Some (mkClient "Ann" 0 true)
  ∧ Forall (λ kv, co_instructor kv.2 = false)
      (clients (SC (remove_client "Ann" three_clients).2)).
Proof.
  pose proof (@three_clients_reachable demo_library) as Hreach.
  assert (Dict.get (clients (SC three_clients)) "Ann" = Some (mkClient "Ann" 0 true))
    as Hget by (vm_compute; reflexivity).
  destruct (@remove_instructor_promotes_nobody demo_library three_clients "Ann" _
              Hreach Hget eq_refl) as [Hnone _].
  split_and!; assumption.
Defined.

Lemma add_client_then_remove_client_restores_witness :
  @reachable demo_library three_clients
  ∧ ∃ final_nick,
      get_safe_nick (nicks (SC three_clients)) "Bob" = Some final_nick
      ∧ clients (SC (remove_client final_nick (add_client "Bob" 3 three_clients).2).2)
        = clients (SC three_clients).
Proof.
  pose proof (@three_clients_reachable demo_library) as Hreach.
  split; [exact Hreach|].
  destruct (@add_client_then_remove_client_restores demo_library three_clients
              "Bob" 3 Hreach) as (final_nick & Hfinal & Hclients & _).
  exists final_nick. split; assumption.
Defined.

Lemma reachable_nicks_word_characters_witness :
  @reachable demo_library three_clients
  ∧ Forall (λ n, all_chars Str.is_word n = true)
      (Dict.keys (clients (SC three_clients))).
Proof.
  pose proof (@three_clients_reachable demo_library) as Hreach.
  split; [exact Hreach|].
  exact (@reachable_nicks_word_characters demo_library three_clients Hreach).
Defined.

Lemma instructor_slide_changed_witness :
  _is_instructor (conn_of three_clients 0) = true
  ∧ Forall (writable three_clients) (participants three_clients)
  ∧ ∃ w', handle_slide_changed 0 ["slide_changed"; "3"] three_clients = (Return tt, w')
          ∧ SC w' = set_latest_instructor_state "3" (SC three_clients).
Proof.
  assert (_is_instructor (conn_of three_clients 0) = true) as Hi
    by (vm_compute; reflexivity).
  assert (Forall (writable three_clients) (participants three_clients)) as Hopen
    by (apply (bool_decide_unpack _); vm_compute; exact I).
  split_and!; [exact Hi|exact Hopen|].
  destruct (instructor_slide_changed 0 "slide_changed" "3" [] three_clients Hi
              (λ _, Hopen)) as (w' & Hrun & HSC & _).
  exists w'. split; assumption.
Defined.

Lemma slide_changed_then_sync_witness :
  _is_instructor (conn_of three_clients 0) = true
  ∧ _is_instructor (conn_of three_clients 1) = false
  ∧ writable three_clients 1
  ∧ handle_sync_to_instructor 1 ["sync_to_instructor"]
      (handle_slide_changed 0 ["slide_changed"; "3"] three_clients).2
    = (Return tt,
       with_conn 1 (received 1 "instructor_state|3")
         (handle_slide_changed 0 ["slide_changed"; "3"] three_clients).2).
Proof.
  assert (_is_instructor (conn_of three_clients 0) = true) as Hi
    by (vm_compute; reflexivity).
  assert (_is_instructor (conn_of three_clients 1) = false) as Hp
    by (vm_compute; reflexivity).
  assert (writable three_clients 1) as Hopen
    by (apply (bool_decide_unpack _); vm_compute; exact I).
  split_and!; [exact Hi|exact Hp|exact Hopen|].
  exact (@slide_changed_then_sync demo_library 0 1 "slide_changed" "3" []
           ["sync_to_instructor"] three_clients Hi Hp Hopen).
Defined.


Lemma instructor_lock_student_nav_witness :
  _is_instructor (conn_of three_clients 0) = true
  ∧ @json_loads demo_library "false" = Some (JBool false)
  ∧ Forall (writable three_clients) (participants three_clients)
  ∧ ∃ w', @handle_lock_student_nav demo_library 0 ["lock_student_nav"; "false"]
            three_clients = (Return tt, w')
          ∧ SC w' = set_lock_student_nav (JBool false) (SC three_clients).
Proof.
  assert (_is_instructor (conn_of three_clients 0) = true) as Hi
    by (vm_compute; reflexivity).
  assert (@json_loads demo_library "false" = Some (JBool false)) as Hv
    by reflexivity.
  assert (Forall (writable three_clients) (participants three_clients)) as Hopen
    by (apply (bool_decide_unpack _); vm_compute; exact I).
  split_and!; [exact Hi|exact Hv|exact Hopen|].
  destruct (@instructor_lock_student_nav demo_library 0 "lock_student_nav" "false" []
              (JBool false) three_clients Hi Hv Hopen) as (w' & Hrun & HSC & _).
  exists w'. split; assumption.
Defined.

Lemma instructor_start_presentation_witness :
  _is_instructor (conn_of three_clients 0) = true
  ∧ Forall (writable three_clients) (recipients three_clients)
  ∧ ∃ w', @handle_start_presentation demo_library 0 ["start_presentation"]
            three_clients = (Return tt, w')
          ∧ _presentation_started (SC w') = true.
Proof.
  assert (_is_instructor (conn_of three_clients 0) = true) as Hi
    by (vm_compute; reflexivity).
  assert (Forall (writable three_clients) (recipients three_clients)) as Hopen
    by (apply (bool_decide_unpack _); vm_compute; exact I).
  split_and!; [exact Hi|exact Hopen|].
  destruct (@instructor_start_presentation demo_library 0 ["start_presentation"]
              three_clients Hi Hopen) as (w' & Hrun & HSC & _).
  exists w'. split; [exact Hrun|]. by rewrite HSC.
Defined.

Lemma open_welcomes_witness :
  @reachable demo_library three_clients
  ∧ Forall (writable three_clients) (recipients three_clients)
  ∧ writable three_clients 3
  ∧ (3 ∉ recipients three_clients)
  ∧ ∃ final_nick w',
      @open demo_library 3 "Bob" three_clients = (Return tt, w')
      ∧ _nick (conn_of w' 3) = Some final_nick.
Proof.
  pose proof (@three_clients_reachable demo_library) as Hreach.
  assert (Forall (writable three_clients) (recipients three_clients)) as Hopen
    by (apply (bool_decide_unpack _); vm_compute; exact I).
  assert (writable three_clients 3) as Hself
    by (apply (bool_decide_unpack _); vm_compute; exact I).
  assert (3 ∉ recipients three_clients) as Hnew
    by (apply (bool_decide_unpack _); vm_compute; exact I).
  split_and!; [exact Hreach|exact Hopen|exact Hself|exact Hnew|].
  destruct (@open_welcomes demo_library 3 "Bob" three_clients Hreach Hopen Hself Hnew)
    as (final_nick & w' & Hrun & _ & _ & Hnick & _).
  exists final_nick, w'. split; assumption.
Defined.

Lemma open_with_closed_peer_leaves_entry_witness :
  @reachable demo_library bob_gone
  ∧ Exists (λ c, closed (conn_of bob_gone c) = true) (recipients bob_gone)
  ∧ _nick (conn_of bob_gone 3) = None
  ∧ ∃ final_nick w',
      @open demo_library 3 "Dan" bob_gone = (Raise WebSocketClosedError, w')
      ∧ Dict.get (clients (SC w')) final_nick = Some (mkClient final_nick 3 false)
      ∧ @on_close 3 w' = (Raise (KeyError None), w').
Proof.
  pose proof (@bob_gone_reachable demo_library) as Hreach.
  assert (Exists (λ c, closed (conn_of bob_gone c) = true) (recipients bob_gone))
    as Hex by (apply (bool_decide_unpack _); vm_compute; exact I).
  assert (_nick (conn_of bob_gone 3) = None) as Hnick by (vm_compute; reflexivity).
  split_and!; [exact Hreach|exact Hex|exact Hnick|].
  destruct (@open_with_closed_peer_leaves_entry demo_library 3 "Dan" bob_gone
              Hreach Hex Hnick)
    as (final_nick & w' & _ & Hrun & Hget & _ & _ & Hclose).
  exists final_nick, w'. split_and!; assumption.
Defined.

Example sanitize_Bob2 : sanitize "Bob!! 2" = "Bob2".
Proof. reflexivity. Qed.

Example split_ex : Str.split "|" "slide_changed|3" = ["slide_changed"; "3"].
Proof. reflexivity. Qed.

Example safe_Bob : get_safe_nick {[ "Bob" ]} "Bob" = Some "Bob1".
Proof. vm_compute. reflexivity. Qed.

Example safe_Bob12 : get_safe_nick {[ "Bob"; "Bob1" ]} "Bob" = Some "Bob12".
Proof. vm_compute. reflexivity. Qed.

(** Ann connects first and Bob second; Ann sends [slide_changed|3], then
    Bob sends [sync_to_instructor]. *)
Example end_to_end :
  let w := @run demo_library
             [EvOpen 0 "Ann"; EvOpen 1 "Bob";
              EvMessage 0 "slide_changed|3"; EvMessage 1 "sync_to_instructor"]
             world_init in
  Dict.keys (clients (SC w)) = ["Ann"; "Bob"]
  ∧ _is_instructor (conn_of w 0) = true
  ∧ _is_instructor (conn_of w 1) = false
  ∧ _latest_instructor_state (SC w) = "3"
  ∧ filter (λ m, m = "instructor_state|3") (written (conn_of w 0)) = []
  ∧ filter (λ m, m = "instructor_state|3") (written (conn_of w 1))
    = ["instructor_state|3"; "instructor_state|3"].
Proof. split_and!; by vm_compute. Qed.
